(** * montecuda: Monte Carlo estimation of pi on a CUDA grid

    A shallow embedding of [pi_monte_carlo.cu]: the sampling loop and the
    shared-memory tree reduction of [estimate_pi_kernel], and the host side
    of [main] (argument parsing, the sample plan, the final sum and the
    estimate).

    Conventions.
    - [unsigned long long] values are integers in [0, 2^64); every
      addition and multiplication of the source is written with its
      wrap-around ([wrap64]).  [unsigned int] values wrap at [2^32].
    - [float] is IEEE binary32 and [double] is IEEE binary64, both through
      the Standard Library's [SpecFloat] (round to nearest, ties to even).
    - [__shared__] and device memory are finite maps from indices to
      values.  A slot that was never written is absent, and reading an
      absent slot or touching an index outside the array is an error
      ([None]).
    - Threads of a block run between two [__syncthreads()] in an arbitrary
      order: a phase is executed along a _schedule_, a list of thread
      indices, and the theorems hold for every schedule that is a
      permutation of the block's threads. *)

From Stdlib Require Import ZArith Lia List Bool String Ascii DecimalString.
From Stdlib Require Import Floats.SpecFloat.
From stdpp Require Import base option list gmap.

Local Open Scope Z_scope.

(** ** Machine integers *)

Definition wrap32 (z : Z) : Z := z mod 2 ^ 32.
Definition wrap64 (z : Z) : Z := z mod 2 ^ 64.

Definition add64 (a b : Z) : Z := wrap64 (a + b).
Definition mul64 (a b : Z) : Z := wrap64 (a * b).

Definition u64 (z : Z) : Prop := 0 <= z < 2 ^ 64.

(** ** Floating point: [float] and [double] *)

Module F32.
Definition prec : Z := 24.
Definition emax : Z := 128.
Definition mul := SFmul prec emax.
Definition add := SFadd prec emax.
Definition leb := SFleb.
Definition compare := SFcompare.
(** [1.0f] *)
Definition one : spec_float := S754_finite false 8388608 (-23).
End F32.

Module F64.
Definition prec : Z := 53.
Definition emax : Z := 1024.
Definition mul := SFmul prec emax.
Definition div := SFdiv prec emax.
(** [static_cast<double>(n)] for an unsigned 64-bit [n] *)
Definition of_u64 (n : Z) : spec_float := binary_normalize prec emax n 0 false.
(** [4.0] *)
Definition four : spec_float := S754_finite false 4503599627370496 (-50).
End F64.

(** ** The kernel: sampling *)

(** [x * x + y * y <= 1.0f], line 45. *)
Definition in_circle (x y : spec_float) : bool :=
  F32.leb (F32.add (F32.mul x x) (F32.mul y y)) F32.one.

(** Body of the sampling loop for one drawn pair, lines 45-47. *)
Definition count_sample (x y : spec_float) (local_count : Z) : Z :=
  if in_circle x y then add64 local_count 1 else local_count.

Section Sampler.
(** cuRAND is an external library: its generator state and its two entry
    points are parameters. *)
Variable curandState_t : Type.
Variable curand_init : Z -> Z -> Z -> curandState_t.
Variable curand_uniform : curandState_t -> spec_float * curandState_t.

(** The loop of lines 39-48, [n] iterations left. *)
Fixpoint sample_loop (n : nat) (state : curandState_t) (local_count : Z) : Z :=
  match n with
  | O => local_count
  | S n' =>
      let '(x, state1) := curand_uniform state in
      let '(y, state2) := curand_uniform state1 in
      sample_loop n' state2 (count_sample x y local_count)
  end.

(** The pairs the loop draws, in order. *)
Fixpoint drawn_pairs (n : nat) (state : curandState_t)
  : list (spec_float * spec_float) :=
  match n with
  | O => []
  | S n' =>
      let '(x, state1) := curand_uniform state in
      let '(y, state2) := curand_uniform state1 in
      (x, y) :: drawn_pairs n' state2
  end.

(** [global_thread_id = block_id * blockDim.x + tid], an [unsigned int]. *)
Definition global_thread_id (blockDim block_id tid : nat) : Z :=
  wrap32 (Z.of_nat block_id * Z.of_nat blockDim + Z.of_nat tid).

(** Lines 32-48: the local count of one thread. *)
Definition thread_local_count
    (seed samples_per_thread : Z) (blockDim block_id tid : nat) : Z :=
  sample_loop (Z.to_nat samples_per_thread)
    (curand_init (wrap64 (seed + global_thread_id blockDim block_id tid)) 0 0)
    0.
End Sampler.

(** ** The kernel: reduction in shared memory *)

(** Threads between two barriers run in the order of a schedule. *)
Fixpoint run_phase {St : Type} (body : nat -> St -> option St)
    (sched : list nat) (st : St) : option St :=
  match sched with
  | [] => Some st
  | tid :: rest => st' ← body tid st; run_phase body rest st'
  end.

(** One store to [block_results], with the thread that issued it. *)
Record write_event := {
  w_block : nat;
  w_tid : nat;
  w_slot : nat;
  w_value : Z
}.

(** Device memory behind [block_results], with the log of the stores made
    to it. *)
Record device_mem := {
  block_results : gmap nat Z;
  write_log : list write_event
}.

Section Kernel.
(** [THREADS_PER_BLOCK] (line 19) sizes [shared_counts]; the source sets
    it to 256.  [blockDim] is [blockDim.x], [num_blocks] the extent of
    [block_results]. *)
Variable THREADS_PER_BLOCK : nat.
Variable blockDim : nat.
Variable num_blocks : nat.

Definition shared_read (shared_counts : gmap nat Z) (i : nat) : option Z :=
  if decide (i < THREADS_PER_BLOCK)%nat then shared_counts !! i else None.

Definition shared_write (shared_counts : gmap nat Z) (i : nat) (v : Z)
  : option (gmap nat Z) :=
  if decide (i < THREADS_PER_BLOCK)%nat then Some (<[i:=v]> shared_counts)
  else None.

(** Line 51: [shared_counts[tid] = local_count]. *)
Definition store_body (local_count : nat -> Z) (tid : nat)
    (shared_counts : gmap nat Z) : option (gmap nat Z) :=
  shared_write shared_counts tid (local_count tid).

(** Lines 56-58: [if (tid < s) shared_counts[tid] += shared_counts[tid + s]].
    With [tid < s <= blockDim.x / 2] the index [tid + s] stays below
    [blockDim.x], so the [unsigned int] sum does not wrap. *)
Definition reduce_body (s tid : nat) (shared_counts : gmap nat Z)
  : option (gmap nat Z) :=
  if (tid <? s)%nat then
    a ← shared_read shared_counts tid;
    b ← shared_read shared_counts (tid + s);
    shared_write shared_counts tid (add64 a b)
  else Some shared_counts.

(** Lines 55-60: [for (s = blockDim.x / 2; s > 0; s >>= 1)], each
    iteration one phase closed by [__syncthreads()].  [step] numbers the
    phases for the schedule; [fuel] bounds the iterations and [None] is
    returned when it runs out. *)
Fixpoint reduce_loop (sched : nat -> list nat) (fuel s step : nat)
    (shared_counts : gmap nat Z) : option (gmap nat Z) :=
  if (0 <? s)%nat then
    match fuel with
    | O => None
    | S fuel' =>
        shared_counts' ← run_phase (reduce_body s) (sched step) shared_counts;
        reduce_loop sched fuel' (Nat.div2 s) (S step) shared_counts'
    end
  else Some shared_counts.

(** Lines 50-60 for one block: the store phase, then the reduction.
    [s] is halved in every iteration, so [blockDim] iterations are
    enough fuel. *)
Definition block_reduce (local_count : nat -> Z) (sched : nat -> list nat)
  : option (gmap nat Z) :=
  shared_counts ← run_phase (store_body local_count) (sched O) ∅;
  reduce_loop sched blockDim (blockDim / 2)%nat 1%nat shared_counts.

(** Lines 63-65: [if (tid == 0) block_results[block_id] = shared_counts[0]]. *)
Definition write_body (block_id : nat) (shared_counts : gmap nat Z)
    (tid : nat) (mem : device_mem) : option device_mem :=
  if (tid =? 0)%nat then
    v ← shared_read shared_counts 0;
    if decide (block_id < num_blocks)%nat then
      Some {| block_results := <[block_id:=v]> (block_results mem);
              write_log := write_log mem ++
                [{| w_block := block_id; w_tid := tid;
                    w_slot := block_id; w_value := v |}] |}
    else None
  else Some mem.

(** The kernel on one block.  [local_count tid] is the count thread [tid]
    reached in its sampling loop; the last phase is numbered
    [S blockDim]. *)
Definition kernel_block (local_count : nat -> Z) (sched : nat -> list nat)
    (block_id : nat) (mem : device_mem) : option device_mem :=
  shared_counts ← block_reduce local_count sched;
  run_phase (write_body block_id shared_counts) (sched (S blockDim)) mem.

(** [estimate_pi_kernel<<<num_blocks, blockDim>>>]: the kernel on every
    block of the grid.  Blocks share nothing but [block_results], where
    each stores to its own slot, so they are run one after the other in
    the order of [block_sched]. *)
Fixpoint estimate_pi_kernel (local_count : nat -> nat -> Z)
    (sched : nat -> nat -> list nat) (block_sched : list nat)
    (mem : device_mem) : option device_mem :=
  match block_sched with
  | [] => Some mem
  | block_id :: rest =>
      mem' ← kernel_block (local_count block_id) (sched block_id) block_id mem;
      estimate_pi_kernel local_count sched rest mem'
  end.
End Kernel.

(** ** The host: [std::stoull]

    [std::stoull(str)] is the C++ standard library's: it converts as
    [strtoull(str, &end, 10)] does, throws [std::invalid_argument] when no
    conversion could be performed and [std::out_of_range] when the value
    does not fit [unsigned long long].  White space is skipped, one sign is
    accepted (a minus sign negates in the unsigned type), the longest run
    of decimal digits is converted and what follows it is ignored. *)

Inductive stoull_result :=
| Parsed (value : Z)
| invalid_argument
| out_of_range.

Definition is_space (c : ascii) : bool :=
  let n := nat_of_ascii c in
  ((n =? 32) || ((9 <=? n) && (n <=? 13)))%nat.

Definition digit_of (c : ascii) : option Z :=
  let n := nat_of_ascii c in
  if ((48 <=? n) && (n <=? 57))%nat then Some (Z.of_nat n - 48) else None.

Fixpoint skip_spaces (s : string) : string :=
  match s with
  | String c rest => if is_space c then skip_spaces rest else s
  | EmptyString => s
  end.

(** The sign, if there is one, and the text after it. *)
Definition split_sign (s : string) : bool * string :=
  match s with
  | String "-"%char rest => (true, rest)
  | String "+"%char rest => (false, rest)
  | _ => (false, s)
  end.

(** The longest prefix of decimal digits. *)
Fixpoint leading_digits (s : string) : list Z :=
  match s with
  | String c rest =>
      match digit_of c with
      | Some d => d :: leading_digits rest
      | None => []
      end
  | EmptyString => []
  end.

Definition decimal_value (ds : list Z) : Z :=
  fold_left (fun acc d => acc * 10 + d) ds 0.

Definition stoull (str : string) : stoull_result :=
  let '(negative, body) := split_sign (skip_spaces str) in
  match leading_digits body with
  | [] => invalid_argument
  | ds =>
      let v := decimal_value ds in
      if 2 ^ 64 <=? v then out_of_range
      else Parsed (if negative then wrap64 (- v) else v)
  end.

(** An argument is a decimal number when it is a non-empty string of
    decimal digits, and it starts with a number when [strtoull] finds
    digits to convert. *)
Fixpoint all_digits (s : string) : bool :=
  match s with
  | String c rest => match digit_of c with Some _ => all_digits rest | None => false end
  | EmptyString => true
  end.

Definition is_decimal_number (s : string) : bool :=
  match s with
  | EmptyString => false
  | _ => all_digits s
  end.


(** ** The host: the sample plan and the estimate *)

Definition THREADS_PER_BLOCK : nat := 256.

(** What [cudaGetDeviceProperties] returns, as far as [main] reads it. *)
Record cudaDeviceProp := {
  name : string;
  multiProcessorCount : Z
}.

(** Line 89: [(unsigned long long)num_blocks * THREADS_PER_BLOCK]. *)
Definition total_threads_of (num_blocks : Z) : Z :=
  mul64 (wrap64 num_blocks) (Z.of_nat THREADS_PER_BLOCK).

(** Line 91: [(total_samples + total_threads - 1) / total_threads]. *)
Definition samples_per_thread_of (total_samples total_threads : Z) : Z :=
  wrap64 (add64 total_samples total_threads - 1) / total_threads.

(** Line 92: [samples_per_thread * total_threads]. *)
Definition actual_total_samples_of (samples_per_thread total_threads : Z) : Z :=
  mul64 samples_per_thread total_threads.

(** Mathematical ceiling of [t / w], for the statements. *)
Definition ceil_div (t w : Z) : Z := (t + w - 1) / w.

(** Lines 124-127: [total_in_circle += h_block_results[i]]. *)
Definition sum_block_results (h_block_results : list Z) : Z :=
  fold_left add64 h_block_results 0.

(** Line 121: the copy of [num_blocks] slots to the host; a slot the kernel
    never stored to has no defined value. *)
Definition memcpy_results (num_blocks : nat) (mem : device_mem) : option (list Z) :=
  mapM (fun i => block_results mem !! i) (seq 0 num_blocks).

(** Line 135: [4.0 * double(total_in_circle) / double(actual_total_samples)]. *)
Definition pi_estimate_of (total_in_circle actual_total_samples : Z) : spec_float :=
  F64.div (F64.mul F64.four (F64.of_u64 total_in_circle))
          (F64.of_u64 actual_total_samples).

(** ** The host: [main] *)

(** Calls into the CUDA runtime, in program order. *)
Inductive cuda_call :=
| cudaGetDevice
| cudaGetDeviceProperties
| cudaMalloc (bytes : Z)
| cudaEventCreate
| cudaEventRecord
| kernel_launch (grid block : nat) (seed samples_per_thread : Z)
| cudaGetLastError
| cudaMemcpy (bytes : Z)
| cudaEventSynchronize
| cudaEventElapsedTime
| cudaEventDestroy
| cudaFree.

(** The figures [main] prints. *)
Record report := {
  r_num_blocks : Z;
  r_samples_per_thread : Z;
  r_total_samples : Z;
  r_actual_total_samples : Z;
  r_total_in_circle : Z;
  r_pi_estimate : spec_float
}.

Inductive outcome :=
| Returned (status : Z) (cerr : list string) (calls : list cuda_call)
    (printed : option report)
| Uncaught (exn : stoull_result)
| Unmodelled.

(** The CUDA calls of a run that goes through, lines 81-149. *)
Definition cuda_trace (num_blocks seed samples_per_thread : Z) : list cuda_call :=
  [cudaGetDevice; cudaGetDeviceProperties;
   cudaMalloc (num_blocks * 8);
   cudaEventCreate; cudaEventCreate; cudaEventRecord;
   kernel_launch (Z.to_nat num_blocks) THREADS_PER_BLOCK seed samples_per_thread;
   cudaGetLastError; cudaEventRecord;
   cudaMemcpy (num_blocks * 8);
   cudaEventSynchronize; cudaEventElapsedTime;
   cudaEventDestroy; cudaEventDestroy; cudaFree].

Definition invalid_argument_message (arg : string) : string :=
  ("Invalid argument: " ++ arg ++ ". Please provide a number.")%string.

Section Host.
Variable curandState_t : Type.
Variable curand_init : Z -> Z -> Z -> curandState_t.
Variable curand_uniform : curandState_t -> spec_float * curandState_t.
(** The order in which blocks run, and for each block and phase the
    order of its threads. *)
Variable block_sched : list nat.
Variable sched : nat -> nat -> list nat.

(** The count each thread of the launch reaches. *)
Definition launch_local_count (seed samples_per_thread : Z)
    (block_id tid : nat) : Z :=
  thread_local_count curandState_t curand_init curand_uniform
    seed samples_per_thread THREADS_PER_BLOCK block_id tid.

(** Line 116 and the copy of line 121. *)
Definition launch_and_copy (num_blocks : nat) (seed samples_per_thread : Z)
  : option (list Z) :=
  mem ← estimate_pi_kernel THREADS_PER_BLOCK THREADS_PER_BLOCK num_blocks
        (launch_local_count seed samples_per_thread) sched block_sched
        {| block_results := ∅; write_log := [] |};
  memcpy_results num_blocks mem.

(** Lines 79-151, once [total_samples] is known.  Every CUDA call is
    taken to succeed.  The run is modelled for [0 < num_blocks < 2^31]:
    outside it line 86 overflows [int], line 91 divides by zero or
    line 102 asks for a vector of negative size. *)
Definition run_simulation (total_samples : Z) (props : cudaDeviceProp)
    (now : Z) : outcome :=
  let num_blocks := multiProcessorCount props * 32 in
  if (num_blocks <=? 0) || (2 ^ 31 <=? num_blocks) then Unmodelled
  else
    let total_threads := total_threads_of num_blocks in
    if total_threads =? 0 then Unmodelled
    else
      let samples_per_thread := samples_per_thread_of total_samples total_threads in
      let actual_total_samples :=
        actual_total_samples_of samples_per_thread total_threads in
      let seed := wrap64 now in
      match launch_and_copy (Z.to_nat num_blocks) seed samples_per_thread with
      | None => Unmodelled
      | Some h_block_results =>
          let total_in_circle := sum_block_results h_block_results in
          Returned 0 [] (cuda_trace num_blocks seed samples_per_thread)
            (Some {| r_num_blocks := num_blocks;
                     r_samples_per_thread := samples_per_thread;
                     r_total_samples := total_samples;
                     r_actual_total_samples := actual_total_samples;
                     r_total_in_circle := total_in_circle;
                     r_pi_estimate :=
                       pi_estimate_of total_in_circle actual_total_samples |})
      end.

(** Lines 68-77.  [argv] holds the program name and the arguments. *)
Definition main (argv : list string) (props : cudaDeviceProp) (now : Z)
  : outcome :=
  match argv with
  | _ :: arg :: _ =>
      match stoull arg with
      | Parsed total_samples => run_simulation total_samples props now
      | invalid_argument =>
          Returned 1 [invalid_argument_message arg] [] None
      | out_of_range => Uncaught out_of_range
      end
  | _ => run_simulation (Z.shiftl 1 30) props now
  end.
End Host.

(** ** Vocabulary of the statements *)

(** [sum_to f n] is [f 0 + ... + f (n - 1)], in unbounded integers. *)
Fixpoint sum_to (f : nat -> Z) (n : nat) : Z :=
  match n with
  | O => 0
  | S n' => sum_to f n' + f n'
  end.

(** The value of a slot, [0] where the slot is absent. *)
Definition slot (m : gmap nat Z) (i : nat) : Z := default 0 (m !! i).

(** A schedule of a block of [n] threads runs each thread once. *)
Definition block_schedule (n : nat) (sched : nat -> list nat) : Prop :=
  forall phase, sched phase ≡ₚ seq 0 n.

(** A schedule of a grid: each block once, and in each block each
    thread once per phase. *)
Definition grid_schedule (num_blocks n : nat) (block_sched : list nat)
    (sched : nat -> nat -> list nat) : Prop :=
  block_sched ≡ₚ seq 0 num_blocks /\
  forall block_id, block_schedule n (sched block_id).

(** The stores of the log that went to [slot_id]. *)
Definition writes_to (slot_id : nat) (log : list write_event) : list write_event :=
  List.filter (fun w => (w_slot w =? slot_id)%nat) log.

(** The store thread 0 of [block_id] makes to the block's own slot. *)
Definition block_write (block_id : nat) (v : Z) : write_event :=
  {| w_block := block_id; w_tid := 0; w_slot := block_id; w_value := v |}.

(** The sum of the local counts of all threads of a launch. *)
Definition grid_sum (local_count : nat -> nat -> Z) (num_blocks n : nat) : Z :=
  sum_to (fun b => sum_to (local_count b) n) num_blocks.

(** The number of pairs inside the quarter circle. *)
Definition hits (pairs : list (spec_float * spec_float)) : nat :=
  length (List.filter (fun p => in_circle (fst p) (snd p)) pairs).

(** The number an all-digit argument denotes. *)
Definition number_of (s : string) : Z := decimal_value (leading_digits s).

(** A stand-in generator for the examples: the state is a counter and the
    draws cycle through 1/2, 9/16, ..., 15/16. *)
Module Stub.
Definition state : Type := Z.
Definition init (seed subsequence offset : Z) : state := seed.
Definition uniform (st : state) : spec_float * state :=
  (S754_finite false (Z.to_pos (8388608 + (st mod 8) * 1048576)) (-24), st + 1).
(** The identity schedule. *)
Definition in_order (n : nat) : nat -> list nat := fun _ => seq 0 n.
(** A device with one multiprocessor: 32 blocks, 8192 threads. *)
Definition props : cudaDeviceProp := {| name := "stub"; multiProcessorCount := 1 |}.
(** [main] on that device, blocks and threads in index order. *)
Definition main (argv : list string) (now : Z) : outcome :=
  main state init uniform (seq 0 32) (fun _ => in_order 256) argv props now.
Definition run_simulation (total_samples now : Z) : outcome :=
  run_simulation state init uniform (seq 0 32) (fun _ => in_order 256)
    total_samples props now.
End Stub.
(** The generator state a thread has reached after [n] iterations of the
    sampling loop. *)
Fixpoint state_after {curandState_t : Type}
    (curand_uniform : curandState_t -> spec_float * curandState_t)
    (n : nat) (state : curandState_t) : curandState_t :=
  match n with
  | O => state
  | S n' =>
      let '(x, state1) := curand_uniform state in
      let '(y, state2) := curand_uniform state1 in
      state_after curand_uniform n' state2
  end.

(** ** The host with failing CUDA calls: [CUDA_CHECK]

    [main] and [run_simulation] above take every CUDA call to succeed.
    Here the runtime may answer any call with an error code, and
    [CUDA_CHECK] (lines 11-17) prints its diagnostic and leaves through
    [exit(EXIT_FAILURE)]. *)

Definition cudaSuccess : Z := 0.
Definition EXIT_FAILURE : Z := 1.

(** What [main] writes to [std::cout]: the plan of lines 94-99 and the
    results of lines 139-144.  The measured time and the comparison
    with [acos(-1.0)] are left out. *)
Inductive cout_lines :=
| plan_lines (gpu : string) (threads_per_block : nat)
    (num_blocks samples_per_thread total_samples actual_total_samples : Z)
| result_lines (total_in_circle : Z) (pi_estimate : spec_float).

(** The process so far: the CUDA calls made and the two output streams. *)
Record process := {
  p_calls : list cuda_call;
  p_cout : list cout_lines;
  p_cerr : list string
}.

Definition start : process := {| p_calls := []; p_cout := []; p_cerr := [] |}.

(** How a piece of [main] ends: it goes on with a value, the process
    exits, an exception leaves [main], or the run is outside the model. *)
Inductive step (A : Type) :=
| Continue (a : A) (p : process)
| Exit (status : Z) (p : process)
| Throw (exn : stoull_result)
| Outside.
Arguments Continue {A} a p.
Arguments Exit {A} status p.
Arguments Throw {A} exn.
Arguments Outside {A}.

Definition io (A : Type) : Type := process -> step A.

Definition io_ret {A : Type} (a : A) : io A := fun p => Continue a p.

Definition io_bind {A B : Type} (m : io A) (k : A -> io B) : io B :=
  fun p =>
    match m p with
    | Continue a p' => k a p'
    | Exit status p' => Exit status p'
    | Throw exn => Throw exn
    | Outside => Outside
    end.

Declare Scope io_scope.
Delimit Scope io_scope with io.
Notation "m1 ;; m2" := (io_bind m1 (fun _ => m2))
  (at level 100, m2 at level 200, right associativity) : io_scope.

Definition print (lines : cout_lines) : io unit :=
  fun p => Continue tt {| p_calls := p_calls p;
                          p_cout := p_cout p ++ [lines];
                          p_cerr := p_cerr p |}.

Definition outside {A : Type} : io A := fun _ => Outside.

(** The line [CUDA_CHECK] writes to [stderr]: the file, the line of the
    check and the text of the error. *)
Definition cuda_error_message (file : string) (line : Z) (text : string) : string :=
  ("CUDA error at " ++ file ++ ":" ++ NilZero.string_of_int (Z.to_int line)
     ++ ": " ++ text)%string.

Section HostChecked.
Variable curandState_t : Type.
Variable curand_init : Z -> Z -> Z -> curandState_t.
Variable curand_uniform : curandState_t -> spec_float * curandState_t.
Variable block_sched : list nat.
Variable sched : nat -> nat -> list nat.
(** [__FILE__], [cudaGetErrorString], and the error code the runtime
    returns from its [n]-th call of the run (counted from 0). *)
Variable file : string.
Variable cudaGetErrorString : Z -> string.
Variable runtime : nat -> Z.

(** A call into the runtime that is not checked: the kernel launch of
    line 116. *)
Definition unchecked (call : cuda_call) : io unit :=
  fun p => Continue tt {| p_calls := p_calls p ++ [call];
                          p_cout := p_cout p;
                          p_cerr := p_cerr p |}.

(** Lines 11-17, used at [line]. *)
Definition CUDA_CHECK (line : Z) (call : cuda_call) : io unit :=
  fun p =>
    let err_ := runtime (length (p_calls p)) in
    let calls := p_calls p ++ [call] in
    if err_ =? cudaSuccess then
      Continue tt {| p_calls := calls; p_cout := p_cout p; p_cerr := p_cerr p |}
    else
      Exit EXIT_FAILURE
        {| p_calls := calls; p_cout := p_cout p;
           p_cerr := p_cerr p ++
             [cuda_error_message file line (cudaGetErrorString err_)] |}.

(** Lines 79-151. *)
Definition run_checked (total_samples : Z) (props : cudaDeviceProp) (now : Z)
  : io Z :=
  (CUDA_CHECK 81 cudaGetDevice ;;
   CUDA_CHECK 83 cudaGetDeviceProperties ;;
   let num_blocks := multiProcessorCount props * 32 in
   if (num_blocks <=? 0) || (2 ^ 31 <=? num_blocks) then outside
   else
     let total_threads := total_threads_of num_blocks in
     if total_threads =? 0 then outside
     else
       let samples_per_thread := samples_per_thread_of total_samples total_threads in
       let actual_total_samples :=
         actual_total_samples_of samples_per_thread total_threads in
       print (plan_lines (name props) THREADS_PER_BLOCK num_blocks
                samples_per_thread total_samples actual_total_samples) ;;
       CUDA_CHECK 104 (cudaMalloc (num_blocks * 8)) ;;
       CUDA_CHECK 108 cudaEventCreate ;;
       CUDA_CHECK 109 cudaEventCreate ;;
       let seed := wrap64 now in
       CUDA_CHECK 115 cudaEventRecord ;;
       unchecked (kernel_launch (Z.to_nat num_blocks) THREADS_PER_BLOCK
                    seed samples_per_thread) ;;
       CUDA_CHECK 117 cudaGetLastError ;;
       CUDA_CHECK 118 cudaEventRecord ;;
       CUDA_CHECK 121 (cudaMemcpy (num_blocks * 8)) ;;
       match launch_and_copy curandState_t curand_init curand_uniform
               block_sched sched (Z.to_nat num_blocks) seed samples_per_thread with
       | None => outside
       | Some h_block_results =>
           let total_in_circle := sum_block_results h_block_results in
           CUDA_CHECK 131 cudaEventSynchronize ;;
           CUDA_CHECK 132 cudaEventElapsedTime ;;
           print (result_lines total_in_circle
                    (pi_estimate_of total_in_circle actual_total_samples)) ;;
           CUDA_CHECK 147 cudaEventDestroy ;;
           CUDA_CHECK 148 cudaEventDestroy ;;
           CUDA_CHECK 149 cudaFree ;;
           io_ret 0
       end)%io.

(** Lines 68-77 in front of it. *)
Definition main_checked (argv : list string) (props : cudaDeviceProp) (now : Z)
  : step Z :=
  match argv with
  | _ :: arg :: _ =>
      match stoull arg with
      | Parsed total_samples => run_checked total_samples props now start
      | invalid_argument =>
          Continue 1 {| p_calls := []; p_cout := [];
                        p_cerr := [invalid_argument_message arg] |}
      | out_of_range => Throw out_of_range
      end
  | _ => run_checked (Z.shiftl 1 30) props now start
  end.
End HostChecked.

(** The figures of a complete output. *)
Definition report_of (cout : list cout_lines) : option report :=
  match cout with
  | [plan_lines _ _ num_blocks samples_per_thread total_samples actual_total_samples;
     result_lines total_in_circle pi_estimate] =>
      Some {| r_num_blocks := num_blocks;
              r_samples_per_thread := samples_per_thread;
              r_total_samples := total_samples;
              r_actual_total_samples := actual_total_samples;
              r_total_in_circle := total_in_circle;
              r_pi_estimate := pi_estimate |}
  | _ => None
  end.

(** Where [main_checked] ends, in the terms of [main]. *)
Definition outcome_of (s : step Z) : outcome :=
  match s with
  | Continue status p | Exit status p =>
      Returned status (p_cerr p) (p_calls p) (report_of (p_cout p))
  | Throw exn => Uncaught exn
  | Outside => Unmodelled
  end.

(** The source lines of the runtime calls, in the order of the run; the
    launch of line 116 is the one without a check. *)
Definition call_lines : list Z :=
  [81; 83; 104; 108; 109; 115; 116; 117; 118; 121; 131; 132; 147; 148; 149].

(** What is on [std::cout] when the [n]-th call has been made. *)
Definition cout_before (n : nat) (r : report) (gpu : string) : list cout_lines :=
  (if (2 <=? n)%nat
   then [plan_lines gpu THREADS_PER_BLOCK (r_num_blocks r) (r_samples_per_thread r)
           (r_total_samples r) (r_actual_total_samples r)]
   else []) ++
  (if (12 <=? n)%nat
   then [result_lines (r_total_in_circle r) (r_pi_estimate r)]
   else []).

(** The status the process ends with, when it ends. *)
Definition status_of (s : step Z) : option Z :=
  match s with
  | Continue status _ | Exit status _ => Some status
  | Throw _ | Outside => None
  end.

(** A runtime that fails its [n]-th call with [code] and no other. *)
Definition fails_at (n : nat) (code : Z) : nat -> Z :=
  fun i => if (i =? n)%nat then code else 0.

(** * Proofs *)

(** ** Machine integers *)

Lemma two_64_pos : 0 < 2 ^ 64.
Proof. lia. Qed.

Lemma wrap64_u64 z : u64 (wrap64 z).
Proof. unfold u64, wrap64. apply Z.mod_pos_bound. lia. Qed.

Lemma wrap64_small z : u64 z -> wrap64 z = z.
Proof. unfold u64, wrap64. intros H. apply Z.mod_small. exact H. Qed.

Lemma add64_u64 a b : u64 (add64 a b).
Proof. apply wrap64_u64. Qed.

Lemma wrap64_add_l a b : wrap64 (wrap64 a + b) = wrap64 (a + b).
Proof. unfold wrap64. apply Zplus_mod_idemp_l. Qed.

Lemma wrap64_add_r a b : wrap64 (a + wrap64 b) = wrap64 (a + b).
Proof. unfold wrap64. apply Zplus_mod_idemp_r. Qed.

(** ** Sums *)

Lemma sum_to_ext f g n :
  (forall i, (i < n)%nat -> f i = g i) -> sum_to f n = sum_to g n.
Proof.
  induction n as [|n IH]; intros Hfg; simpl; [reflexivity|].
  rewrite IH by (intros; apply Hfg; lia).
  rewrite Hfg by lia. reflexivity.
Qed.

Lemma sum_to_app f n m :
  sum_to f (n + m) = sum_to f n + sum_to (fun i => f (n + i)%nat) m.
Proof.
  induction m as [|m IH]; simpl.
  - rewrite Nat.add_0_r. lia.
  - rewrite Nat.add_succ_r. simpl. rewrite IH. lia.
Qed.

Lemma sum_to_plus f g n :
  sum_to (fun i => f i + g i) n = sum_to f n + sum_to g n.
Proof. induction n as [|n IH]; simpl; lia. Qed.

Lemma sum_to_wrap f n : wrap64 (sum_to (fun i => wrap64 (f i)) n) = wrap64 (sum_to f n).
Proof.
  induction n as [|n IH]; simpl; [reflexivity|].
  rewrite wrap64_add_r, <- wrap64_add_l, IH, wrap64_add_l. reflexivity.
Qed.

Lemma sum_to_bounds f n lo hi :
  (forall i, (i < n)%nat -> lo <= f i <= hi) ->
  Z.of_nat n * lo <= sum_to f n <= Z.of_nat n * hi.
Proof.
  induction n as [|n IH]; intros Hf; simpl sum_to; [lia|].
  specialize (IH (fun i Hi => Hf i (Nat.lt_lt_succ_r _ _ Hi))).
  specialize (Hf n (Nat.lt_succ_diag_r n)). lia.
Qed.

(** ** Phases *)

Lemma elem_of_block_schedule n sched phase i :
  block_schedule n sched -> i ∈ sched phase <-> (i < n)%nat.
Proof.
  intros H. rewrite (H phase), elem_of_seq. lia.
Qed.

Lemma NoDup_block_schedule n sched phase :
  block_schedule n sched -> NoDup (sched phase).
Proof. intros H. rewrite (H phase). apply NoDup_seq. Qed.

Lemma run_phase_cons {St} (body : nat -> St -> option St) t rest st st' :
  body t st = Some st' ->
  run_phase body (t :: rest) st = run_phase body rest st'.
Proof. intros H. simpl. rewrite H. reflexivity. Qed.

Lemma store_body_some tpb local_count t (shared : gmap nat Z) :
  (t < tpb)%nat ->
  store_body tpb local_count t shared = Some (<[t:=local_count t]> shared).
Proof.
  intros H. unfold store_body, shared_write. rewrite decide_True by exact H.
  reflexivity.
Qed.

Lemma reduce_body_active tpb s t (shared : gmap nat Z) a b :
  (t < s)%nat -> (t + s < tpb)%nat ->
  shared !! t = Some a -> shared !! (t + s)%nat = Some b ->
  reduce_body tpb s t shared = Some (<[t:=add64 a b]> shared).
Proof.
  intros Hts Hb Ha Hb'. unfold reduce_body, shared_read, shared_write.
  apply Nat.ltb_lt in Hts as ->.
  rewrite !decide_True by lia. rewrite Ha, Hb'. simpl.
  rewrite decide_True by lia. reflexivity.
Qed.

Lemma reduce_body_idle tpb s t (shared : gmap nat Z) :
  (s <= t)%nat -> reduce_body tpb s t shared = Some shared.
Proof.
  intros Hts. unfold reduce_body. apply Nat.ltb_ge in Hts as ->. reflexivity.
Qed.

(** The store phase fills the slot of every scheduled thread, whatever the
    order. *)
Lemma run_phase_store tpb local_count sched :
  forall shared : gmap nat Z,
  (forall t, t ∈ sched -> (t < tpb)%nat) ->
  exists shared',
    run_phase (store_body tpb local_count) sched shared = Some shared' /\
    forall i, shared' !! i =
      if decide (i ∈ sched) then Some (local_count i) else shared !! i.
Proof.
  induction sched as [|t rest IH]; intros shared Hin.
  - exists shared. split; [reflexivity|]. intros i.
    destruct (decide (i ∈ [])) as [Hi|_]; [inversion Hi|reflexivity].
  - rewrite (run_phase_cons _ _ _ _ _ (store_body_some _ _ _ _ (Hin t ltac:(left)))).
    destruct (IH (<[t:=local_count t]> shared)) as (shared' & Hrun & Hget).
    { intros u Hu. apply Hin. right. exact Hu. }
    exists shared'. split; [exact Hrun|]. intros i. rewrite Hget.
    destruct (decide (i ∈ rest)) as [Hi|Hi].
    + rewrite decide_True by (right; exact Hi). reflexivity.
    + destruct (decide (i = t)) as [->|Hne].
      * rewrite lookup_insert_eq, decide_True by left. reflexivity.
      * rewrite lookup_insert_ne by congruence.
        rewrite decide_False; [reflexivity|].
        intros [?|?]%elem_of_cons; contradiction.
Qed.

(** One reduction step adds slot [i + s] into slot [i] for every scheduled
    [i < s] and leaves the other slots alone, whatever the order: no
    thread reads a slot that another thread of the step writes. *)
Lemma run_phase_reduce tpb s sched :
  forall shared : gmap nat Z,
  NoDup sched ->
  (forall t, t ∈ sched -> (t < s)%nat -> (t + s < tpb)%nat) ->
  (forall i, (i < s + s)%nat -> is_Some (shared !! i)) ->
  exists shared',
    run_phase (reduce_body tpb s) sched shared = Some shared' /\
    forall i, shared' !! i =
      if decide (i ∈ sched /\ (i < s)%nat)
      then Some (add64 (slot shared i) (slot shared (i + s)))
      else shared !! i.
Proof.
  induction sched as [|t rest IH]; intros shared Hnd Hin Hdef.
  - exists shared. split; [reflexivity|]. intros i.
    rewrite decide_False; [reflexivity|]. intros [Hi _]. inversion Hi.
  - apply NoDup_cons in Hnd as [Ht Hnd].
    destruct (Nat.lt_ge_cases t s) as [Hts|Hts].
    + assert (Hb : (t + s < tpb)%nat) by (apply Hin; [left|exact Hts]).
      destruct (Hdef t) as [a Ha]; [lia|].
      destruct (Hdef (t + s)%nat) as [b Hb']; [lia|].
      rewrite (run_phase_cons _ _ _ _ _ (reduce_body_active _ _ _ _ _ _ Hts Hb Ha Hb')).
      destruct (IH (<[t:=add64 a b]> shared)) as (shared' & Hrun & Hget).
      { exact Hnd. }
      { intros u Hu. apply Hin. right. exact Hu. }
      { intros i Hi. destruct (decide (i = t)) as [->|Hne].
        - rewrite lookup_insert_eq. eauto.
        - rewrite lookup_insert_ne by congruence. apply Hdef, Hi. }
      exists shared'. split; [exact Hrun|]. intros i. rewrite Hget.
      unfold slot.
      destruct (decide (i ∈ rest /\ (i < s)%nat)) as [[Hi His]|Hi].
      * assert (i <> t) by (intros ->; contradiction).
        rewrite !lookup_insert_ne by lia.
        rewrite decide_True; [reflexivity|]. split; [right; exact Hi|exact His].
      * destruct (decide (i = t)) as [->|Hne].
        -- rewrite lookup_insert_eq.
           rewrite decide_True by (split; [left|exact Hts]).
           rewrite Ha, Hb'. reflexivity.
        -- rewrite lookup_insert_ne by congruence.
           rewrite decide_False; [reflexivity|].
           intros [[?|?]%elem_of_cons ?]; [contradiction|]. apply Hi. split; assumption.
    + rewrite (run_phase_cons _ _ _ _ _ (reduce_body_idle tpb _ _ shared Hts)).
      destruct (IH shared Hnd) as (shared' & Hrun & Hget).
      { intros u Hu. apply Hin. right. exact Hu. }
      { exact Hdef. }
      exists shared'. split; [exact Hrun|]. intros i. rewrite Hget.
      destruct (decide (i ∈ rest /\ (i < s)%nat)) as [[Hi His]|Hi].
      * rewrite decide_True; [reflexivity|]. split; [right; exact Hi|exact His].
      * rewrite decide_False; [reflexivity|].
        intros [[->|?]%elem_of_cons ?]; [lia|]. apply Hi. split; assumption.
Qed.

(** ** The tree reduction *)

Lemma reduce_loop_done tpb sched fuel step (shared : gmap nat Z) :
  reduce_loop tpb sched fuel 0 step shared = Some shared.
Proof. destruct fuel; reflexivity. Qed.

Lemma reduce_loop_step tpb sched fuel s step (shared shared' : gmap nat Z) :
  (0 < s)%nat ->
  run_phase (reduce_body tpb s) (sched step) shared = Some shared' ->
  reduce_loop tpb sched (S fuel) s step shared =
  reduce_loop tpb sched fuel (Nat.div2 s) (S step) shared'.
Proof.
  intros Hs Hrun. simpl. apply Nat.ltb_lt in Hs as ->. rewrite Hrun. reflexivity.
Qed.

Lemma div2_pow2 j : Nat.div2 (2 ^ S j) = (2 ^ j)%nat.
Proof. rewrite Nat.pow_succ_r'. apply Nat.div2_double. Qed.

Lemma half_pow2 j : (2 ^ S j / 2 = 2 ^ j)%nat.
Proof. rewrite Nat.pow_succ_r', Nat.mul_comm. apply Nat.div_mul. lia. Qed.

Lemma pow2_pos j : (0 < 2 ^ j)%nat.
Proof. induction j; simpl; lia. Qed.

Lemma lt_pow2 j : (j < 2 ^ j)%nat.
Proof. induction j; simpl; lia. Qed.

(** A step with stride [s] moves the sum of the first [s + s] slots into
    the first [s] slots, modulo [2^64]. *)
Lemma reduce_phase_sum tpb n s sched phase (shared : gmap nat Z) :
  block_schedule n sched -> (s + s <= n)%nat -> (n <= tpb)%nat ->
  (forall i, (i < s + s)%nat -> exists v, shared !! i = Some v /\ u64 v) ->
  exists shared',
    run_phase (reduce_body tpb s) (sched phase) shared = Some shared' /\
    (forall i, (i < s)%nat -> exists v, shared' !! i = Some v /\ u64 v) /\
    wrap64 (sum_to (slot shared') s) = wrap64 (sum_to (slot shared) (s + s)).
Proof.
  intros Hsched Hs Hn Hdef.
  destruct (run_phase_reduce tpb s (sched phase) shared)
    as (shared' & Hrun & Hget).
  - eapply NoDup_block_schedule, Hsched.
  - intros t Ht Hts. apply (elem_of_block_schedule _ _ _ _ Hsched) in Ht. lia.
  - intros i Hi. destruct (Hdef i Hi) as (v & Hv & _). eauto.
  - assert (Hlow : forall i, (i < s)%nat ->
        shared' !! i = Some (add64 (slot shared i) (slot shared (i + s)))).
    { intros i Hi. rewrite Hget, decide_True; [reflexivity|].
      split; [|exact Hi]. apply (elem_of_block_schedule _ _ _ _ Hsched). lia. }
    exists shared'. split; [exact Hrun|]. split.
    + intros i Hi. eexists. split; [apply Hlow, Hi|apply add64_u64].
    + rewrite (sum_to_ext (slot shared')
                 (fun i => wrap64 (slot shared i + slot shared (s + i)))).
      * rewrite sum_to_wrap, sum_to_plus, sum_to_app. reflexivity.
      * intros i Hi. unfold slot at 1. rewrite (Hlow i Hi). simpl.
        rewrite (Nat.add_comm s i). reflexivity.
Qed.

(** From stride [2^j] down to 1 the loop ends, within [j + 1] iterations,
    with the sum of the first [2^(j+1)] slots in slot 0. *)
Lemma reduce_loop_pow2 tpb n sched :
  block_schedule n sched -> (n <= tpb)%nat ->
  forall j fuel step (shared : gmap nat Z),
  (j < fuel)%nat -> (2 ^ S j <= n)%nat ->
  (forall i, (i < 2 ^ S j)%nat -> exists v, shared !! i = Some v /\ u64 v) ->
  exists shared' v,
    reduce_loop tpb sched fuel (2 ^ j) step shared = Some shared' /\
    shared' !! 0%nat = Some v /\ u64 v /\
    wrap64 v = wrap64 (sum_to (slot shared) (2 ^ S j)).
Proof.
  intros Hsched Hn.
  induction j as [|j IH]; intros fuel step shared Hfuel Hj Hdef;
    (destruct fuel as [|fuel]; [lia|]).
  - destruct (reduce_phase_sum tpb n (2 ^ 0) sched step shared Hsched)
      as (shared1 & Hrun & Hdef1 & Hsum); [simpl in *; lia|exact Hn|exact Hdef|].
    rewrite (reduce_loop_step _ _ _ _ _ _ _ (pow2_pos _) Hrun).
    change (Nat.div2 (2 ^ 0)) with 0%nat. rewrite reduce_loop_done.
    destruct (Hdef1 0%nat) as (v & Hv & Hu); [simpl; lia|].
    exists shared1, v. repeat split; try assumption; try apply Hu.
    change (2 ^ 1)%nat with (2 ^ 0 + 2 ^ 0)%nat.
    rewrite <- Hsum. simpl. unfold slot. rewrite Hv. reflexivity.
  - assert (Hdbl : (2 ^ S (S j) = 2 ^ S j + 2 ^ S j)%nat)
      by (rewrite (Nat.pow_succ_r' 2 (S j)); lia).
    destruct (reduce_phase_sum tpb n (2 ^ S j) sched step shared Hsched)
      as (shared1 & Hrun & Hdef1 & Hsum); [lia|exact Hn| |].
    { intros i Hi. apply Hdef. lia. }
    rewrite (reduce_loop_step _ _ _ _ _ _ _ (pow2_pos _) Hrun), div2_pow2.
    destruct (IH fuel (S step) shared1) as (shared' & v & Hloop & Hv & Hu & Hv');
      [lia|lia|exact Hdef1|].
    exists shared', v. repeat split; try assumption; try apply Hu.
    rewrite Hv', Hsum, Hdbl. reflexivity.
Qed.

(** The reduction of a block whose size is a power of two and fits the
    scratch array. *)
Lemma block_reduce_pow2 tpb k local_count sched :
  (2 ^ k <= tpb)%nat ->
  block_schedule (2 ^ k) sched ->
  (forall i, (i < 2 ^ k)%nat -> u64 (local_count i)) ->
  exists shared,
    block_reduce tpb (2 ^ k) local_count sched = Some shared /\
    shared !! 0%nat = Some (wrap64 (sum_to local_count (2 ^ k))).
Proof.
  intros Htpb Hsched Hu. unfold block_reduce.
  destruct (run_phase_store tpb local_count (sched 0%nat) ∅)
    as (shared0 & Hrun & Hget).
  { intros t Ht. apply (elem_of_block_schedule _ _ _ _ Hsched) in Ht. lia. }
  rewrite Hrun. unfold mbind, option_bind.
  assert (Hdef : forall i, (i < 2 ^ k)%nat -> shared0 !! i = Some (local_count i)).
  { intros i Hi. rewrite Hget, decide_True; [reflexivity|].
    apply (elem_of_block_schedule _ _ _ _ Hsched). exact Hi. }
  destruct k as [|j].
  - change (2 ^ 0 / 2)%nat with 0%nat. rewrite reduce_loop_done.
    exists shared0. split; [reflexivity|].
    rewrite Hdef by (simpl; lia). simpl.
    rewrite wrap64_small by (apply Hu; simpl; lia). reflexivity.
  - rewrite half_pow2.
    destruct (reduce_loop_pow2 tpb (2 ^ S j) sched Hsched Htpb
                j (2 ^ S j)%nat 1%nat shared0)
      as (shared' & v & Hloop & Hv & Hvu & Hsum).
    + pose proof (lt_pow2 (S j)). lia.
    + lia.
    + intros i Hi. exists (local_count i). split; [apply Hdef, Hi|apply Hu, Hi].
    + exists shared'. split; [exact Hloop|].
      rewrite Hv. f_equal. rewrite <- (wrap64_small v Hvu), Hsum. f_equal.
      apply sum_to_ext. intros i Hi. unfold slot. rewrite (Hdef i Hi). reflexivity.
Qed.

(** ** The sampling loop *)

Section SamplerFacts.
Variable curandState_t : Type.
Variable curand_init : Z -> Z -> Z -> curandState_t.
Variable curand_uniform : curandState_t -> spec_float * curandState_t.


Lemma drawn_pairs_length n state :
  length (drawn_pairs curandState_t curand_uniform n state) = n.
Proof.
  revert state. induction n as [|n IH]; intros state; [reflexivity|].
  simpl. destruct (curand_uniform state) as [x state1].
  destruct (curand_uniform state1) as [y state2]. simpl. f_equal. apply IH.
Qed.

Lemma hits_cons x y pairs :
  hits ((x, y) :: pairs) = if in_circle x y then S (hits pairs) else hits pairs.
Proof. unfold hits. simpl. destruct (in_circle x y); reflexivity. Qed.

Lemma hits_le_length pairs : (hits pairs <= length pairs)%nat.
Proof. apply List.filter_length_le. Qed.

(** The counter never wraps: it grows by at most one per iteration. *)
Lemma sample_loop_hits n :
  forall state local_count,
  0 <= local_count -> local_count + Z.of_nat n < 2 ^ 64 ->
  sample_loop curandState_t curand_uniform n state local_count =
  local_count + Z.of_nat (hits (drawn_pairs curandState_t curand_uniform n state)).
Proof.
  induction n as [|n IH]; intros state c Hc Hn.
  - simpl. unfold hits. simpl. lia.
  - simpl. destruct (curand_uniform state) as [x state1].
    destruct (curand_uniform state1) as [y state2].
    rewrite hits_cons. unfold count_sample.
    destruct (in_circle x y).
    + unfold add64. rewrite wrap64_small by (unfold u64; lia).
      rewrite IH by lia. lia.
    + apply IH; lia.
Qed.

Lemma thread_local_count_hits seed samples_per_thread blockDim block_id tid :
  u64 samples_per_thread ->
  thread_local_count curandState_t curand_init curand_uniform
    seed samples_per_thread blockDim block_id tid =
  Z.of_nat (hits (drawn_pairs curandState_t curand_uniform (Z.to_nat samples_per_thread)
    (curand_init (wrap64 (seed + global_thread_id blockDim block_id tid)) 0 0))).
Proof.
  intros [H0 H1]. unfold thread_local_count.
  rewrite sample_loop_hits by lia. lia.
Qed.

Lemma thread_local_count_bounds seed samples_per_thread blockDim block_id tid :
  u64 samples_per_thread ->
  0 <= thread_local_count curandState_t curand_init curand_uniform
         seed samples_per_thread blockDim block_id tid <= samples_per_thread.
Proof.
  intros H. rewrite thread_local_count_hits by exact H.
  pose proof (hits_le_length
    (drawn_pairs curandState_t curand_uniform (Z.to_nat samples_per_thread)
    (curand_init (wrap64 (seed + global_thread_id blockDim block_id tid)) 0 0)))
    as Hle.
  rewrite drawn_pairs_length in Hle. destruct H. lia.
Qed.
End SamplerFacts.

(** ** The sample plan *)

Lemma total_threads_of_eq num_blocks :
  0 <= num_blocks < 2 ^ 31 -> total_threads_of num_blocks = num_blocks * 256.
Proof.
  intros H. unfold total_threads_of, mul64.
  rewrite (wrap64_small num_blocks) by (unfold u64; lia).
  change (Z.of_nat THREADS_PER_BLOCK) with 256.
  apply wrap64_small. unfold u64. lia.
Qed.

Lemma samples_per_thread_u64 total_samples total_threads :
  0 < total_threads ->
  u64 (samples_per_thread_of total_samples total_threads).
Proof.
  intros Hw. unfold samples_per_thread_of.
  pose proof (wrap64_u64 (add64 total_samples total_threads - 1)) as [H0 H1].
  split.
  - apply Z.div_pos; lia.
  - apply Z.le_lt_trans with (wrap64 (add64 total_samples total_threads - 1));
      [|exact H1].
    apply Z.div_le_upper_bound; [lia|]. nia.
Qed.

(** The product of line 92 never wraps. *)
Lemma actual_total_samples_exact total_samples total_threads :
  0 < total_threads ->
  actual_total_samples_of (samples_per_thread_of total_samples total_threads)
    total_threads =
  samples_per_thread_of total_samples total_threads * total_threads.
Proof.
  intros Hw. unfold actual_total_samples_of, mul64. apply wrap64_small.
  unfold samples_per_thread_of.
  pose proof (wrap64_u64 (add64 total_samples total_threads - 1)) as [H0 H1].
  set (x := wrap64 (add64 total_samples total_threads - 1)) in *.
  pose proof (Z.mul_div_le x total_threads Hw).
  assert (0 <= x / total_threads) by (apply Z.div_pos; lia).
  split; nia.
Qed.

(** As long as [total_samples + total_threads] fits 64 bits, line 91 is the
    ceiling division. *)
Lemma samples_per_thread_ceil total_samples total_threads :
  0 <= total_samples -> 1 <= total_threads ->
  total_samples + total_threads <= 2 ^ 64 ->
  samples_per_thread_of total_samples total_threads =
  ceil_div total_samples total_threads.
Proof.
  intros Ht Hw Hfit. unfold samples_per_thread_of, ceil_div, add64, wrap64.
  rewrite Zminus_mod_idemp_l. rewrite Z.mod_small by lia. reflexivity.
Qed.

Lemma ceil_div_covers t w : 1 <= w -> t <= ceil_div t w * w < t + w.
Proof.
  intros Hw. unfold ceil_div.
  pose proof (Z.div_mod (t + w - 1) w ltac:(lia)).
  pose proof (Z.mod_pos_bound (t + w - 1) w ltac:(lia)). nia.
Qed.

Lemma plan_in_range total_samples total_threads :
  0 <= total_samples -> 1 <= total_threads ->
  total_samples + total_threads <= 2 ^ 64 ->
  let samples_per_thread := samples_per_thread_of total_samples total_threads in
  let actual := actual_total_samples_of samples_per_thread total_threads in
  samples_per_thread = ceil_div total_samples total_threads /\
  actual = ceil_div total_samples total_threads * total_threads /\
  total_samples <= actual.
Proof.
  intros Ht Hw Hfit. cbv zeta.
  rewrite actual_total_samples_exact by lia.
  rewrite samples_per_thread_ceil by assumption.
  pose proof (ceil_div_covers total_samples total_threads Hw). lia.
Qed.

(** The run reported in the repository's notes: 24 multiprocessors, a
    request of [10^12] samples. *)
Example plan_of_reported_run :
  total_threads_of (24 * 32) = 196608 /\
  samples_per_thread_of 1000000000000 (total_threads_of (24 * 32)) = 5086264 /\
  actual_total_samples_of 5086264 (total_threads_of (24 * 32)) = 1000000192512.
Proof. repeat split; vm_compute; reflexivity. Qed.

(** ** The store to [block_results] *)

Lemma write_body_idle tpb num_blocks block_id (shared : gmap nat Z) tid mem :
  tid <> 0%nat ->
  write_body tpb num_blocks block_id shared tid mem = Some mem.
Proof.
  intros H. unfold write_body.
  destruct (Nat.eqb_spec tid 0); [contradiction|reflexivity].
Qed.

Lemma write_body_first tpb num_blocks block_id (shared : gmap nat Z) v mem :
  (0 < tpb)%nat -> (block_id < num_blocks)%nat -> shared !! 0%nat = Some v ->
  write_body tpb num_blocks block_id shared 0 mem =
  Some {| block_results := <[block_id:=v]> (block_results mem);
          write_log := write_log mem ++ [block_write block_id v] |}.
Proof.
  intros Htpb Hb Hv. unfold write_body, shared_read. simpl.
  rewrite decide_True by exact Htpb. rewrite Hv. simpl.
  rewrite decide_True by exact Hb. reflexivity.
Qed.

Lemma run_phase_write_idle tpb num_blocks block_id (shared : gmap nat Z) sched :
  forall mem, 0%nat ∉ sched ->
  run_phase (write_body tpb num_blocks block_id shared) sched mem = Some mem.
Proof.
  induction sched as [|t rest IH]; intros mem Hnot; [reflexivity|].
  apply not_elem_of_cons in Hnot as [Hne Hnot].
  rewrite (run_phase_cons _ _ _ _ mem); [apply IH, Hnot|].
  apply write_body_idle. congruence.
Qed.

(** Whatever the order of the threads, the last phase makes one store. *)
Lemma run_phase_write tpb num_blocks block_id (shared : gmap nat Z) v sched :
  (0 < tpb)%nat -> (block_id < num_blocks)%nat -> shared !! 0%nat = Some v ->
  forall mem, NoDup sched -> 0%nat ∈ sched ->
  run_phase (write_body tpb num_blocks block_id shared) sched mem =
  Some {| block_results := <[block_id:=v]> (block_results mem);
          write_log := write_log mem ++ [block_write block_id v] |}.
Proof.
  intros Htpb Hb Hv.
  induction sched as [|t rest IH]; intros mem Hnd Hin; [inversion Hin|].
  apply NoDup_cons in Hnd as [Ht Hnd].
  destruct (decide (t = 0%nat)) as [->|Hne].
  - rewrite (run_phase_cons _ _ _ _ _ (write_body_first _ _ _ _ _ mem Htpb Hb Hv)).
    apply run_phase_write_idle, Ht.
  - rewrite (run_phase_cons _ _ _ _ mem) by (apply write_body_idle, Hne).
    apply IH; [exact Hnd|].
    apply elem_of_cons in Hin as [Heq|Hin]; [congruence|exact Hin].
Qed.

(** ** One block, then the grid *)

Lemma kernel_block_pow2 tpb k num_blocks local_count sched block_id mem :
  (2 ^ k <= tpb)%nat ->
  block_schedule (2 ^ k) sched ->
  (forall i, (i < 2 ^ k)%nat -> u64 (local_count i)) ->
  (block_id < num_blocks)%nat ->
  kernel_block tpb (2 ^ k) num_blocks local_count sched block_id mem =
  Some {| block_results :=
            <[block_id:=wrap64 (sum_to local_count (2 ^ k))]> (block_results mem);
          write_log := write_log mem ++
            [block_write block_id (wrap64 (sum_to local_count (2 ^ k)))] |}.
Proof.
  intros Htpb Hsched Hu Hb. unfold kernel_block.
  destruct (block_reduce_pow2 tpb k local_count sched Htpb Hsched Hu)
    as (shared & Hred & Hv).
  rewrite Hred. unfold mbind, option_bind.
  apply run_phase_write; try assumption.
  - pose proof (pow2_pos k). lia.
  - eapply NoDup_block_schedule, Hsched.
  - apply (elem_of_block_schedule _ _ _ _ Hsched), pow2_pos.
Qed.

Lemma estimate_pi_kernel_pow2 tpb k num_blocks local_count sched block_sched :
  (2 ^ k <= tpb)%nat ->
  (forall b, block_schedule (2 ^ k) (sched b)) ->
  (forall b i, b ∈ block_sched -> (i < 2 ^ k)%nat -> u64 (local_count b i)) ->
  forall mem, (forall b, b ∈ block_sched -> (b < num_blocks)%nat) ->
  exists mem',
    estimate_pi_kernel tpb (2 ^ k) num_blocks local_count sched block_sched mem =
      Some mem' /\
    write_log mem' = write_log mem ++
      map (fun b => block_write b (wrap64 (sum_to (local_count b) (2 ^ k))))
          block_sched /\
    forall i, block_results mem' !! i =
      if decide (i ∈ block_sched)
      then Some (wrap64 (sum_to (local_count i) (2 ^ k)))
      else block_results mem !! i.
Proof.
  intros Htpb Hsched.
  induction block_sched as [|b rest IH]; intros Hu mem Hin.
  - exists mem. split; [reflexivity|]. split.
    + simpl. rewrite app_nil_r. reflexivity.
    + intros i. rewrite decide_False; [reflexivity|]. inversion 1.
  - cbn [estimate_pi_kernel].
    rewrite (kernel_block_pow2 tpb k num_blocks (local_count b) (sched b) b mem
               Htpb (Hsched b) (fun i => Hu b i ltac:(left)) (Hin b ltac:(left))).
    unfold mbind, option_bind.
    destruct (IH (fun c i Hc => Hu c i ltac:(right; exact Hc))
                {| block_results :=
                      <[b:=wrap64 (sum_to (local_count b) (2 ^ k))]>
                        (block_results mem);
                    write_log := write_log mem ++
                      [block_write b (wrap64 (sum_to (local_count b) (2 ^ k)))] |})
      as (mem' & Hrun & Hlog & Hget).
    { intros c Hc. apply Hin. right. exact Hc. }
    exists mem'. split; [exact Hrun|]. split.
    + rewrite Hlog. simpl. rewrite <- app_assoc. reflexivity.
    + intros i. rewrite Hget. simpl.
      destruct (decide (i ∈ rest)) as [Hi|Hi].
      * rewrite decide_True by (right; exact Hi). reflexivity.
      * destruct (decide (i = b)) as [->|Hne].
        -- rewrite lookup_insert_eq, decide_True by left. reflexivity.
        -- rewrite lookup_insert_ne by congruence.
           rewrite decide_False; [reflexivity|].
           intros [?|?]%elem_of_cons; contradiction.
Qed.

(** Among the stores of a grid run, slot [b] gets exactly the one of its
    own block. *)
Lemma writes_to_block_writes (f : nat -> Z) block_sched b :
  NoDup block_sched -> b ∈ block_sched ->
  writes_to b (map (fun c => block_write c (f c)) block_sched) =
  [block_write b (f b)].
Proof.
  unfold writes_to.
  induction block_sched as [|c rest IH]; intros Hnd Hin; [inversion Hin|].
  apply NoDup_cons in Hnd as [Hc Hnd]. simpl.
  assert (Hnone : forall l, b ∉ l ->
    List.filter (fun w => (w_slot w =? b)%nat)
      (map (fun c => block_write c (f c)) l) = []).
  { induction l as [|d l IHl]; intros Hb; [reflexivity|].
    apply not_elem_of_cons in Hb as [Hne Hb]. simpl.
    destruct (Nat.eqb_spec d b); [congruence|]. apply IHl, Hb. }
  destruct (Nat.eqb_spec c b) as [->|Hne].
  - rewrite Hnone by exact Hc. reflexivity.
  - apply IH; [exact Hnd|].
    apply elem_of_cons in Hin as [Heq|Hin]; [congruence|exact Hin].
Qed.

(** ** The copy and the host sum *)

Lemma memcpy_results_some num_blocks mem (f : nat -> Z) :
  (forall i, (i < num_blocks)%nat -> block_results mem !! i = Some (f i)) ->
  memcpy_results num_blocks mem = Some (map f (seq 0 num_blocks)).
Proof.
  intros H. unfold memcpy_results.
  assert (Hgen : forall l, (forall i, i ∈ l -> (i < num_blocks)%nat) ->
            mapM (fun i => block_results mem !! i) l = Some (map f l)).
  { induction l as [|i l IH]; intros Hl; [reflexivity|].
    simpl. rewrite (H i) by (apply Hl; left). simpl.
    rewrite IH by (intros j Hj; apply Hl; right; exact Hj). reflexivity. }
  apply Hgen. intros i Hi. apply elem_of_seq in Hi. lia.
Qed.

Lemma sum_block_results_map (f : nat -> Z) n :
  sum_block_results (map f (seq 0 n)) = wrap64 (sum_to f n).
Proof.
  unfold sum_block_results. induction n as [|n IH]; [reflexivity|].
  rewrite seq_S, map_app, fold_left_app, IH. simpl.
  unfold add64. apply wrap64_add_l.
Qed.

(** ** A whole run *)

Section RunFacts.
Variable curandState_t : Type.
Variable curand_init : Z -> Z -> Z -> curandState_t.
Variable curand_uniform : curandState_t -> spec_float * curandState_t.
Variable block_sched : list nat.
Variable sched : nat -> nat -> list nat.


Lemma local_count_bounds seed samples_per_thread b t :
  u64 samples_per_thread ->
  0 <= launch_local_count curandState_t curand_init curand_uniform
         seed samples_per_thread b t <= samples_per_thread.
Proof. apply thread_local_count_bounds. Qed.

Lemma block_sum_bounds seed samples_per_thread b :
  u64 samples_per_thread ->
  0 <= sum_to (launch_local_count curandState_t curand_init curand_uniform
                 seed samples_per_thread b) THREADS_PER_BLOCK
    <= 256 * samples_per_thread.
Proof.
  intros H.
  pose proof (sum_to_bounds
                (launch_local_count curandState_t curand_init curand_uniform
                   seed samples_per_thread b)
                THREADS_PER_BLOCK 0 samples_per_thread
                (fun t _ => local_count_bounds seed samples_per_thread b t H)) as Hb.
  change (Z.of_nat THREADS_PER_BLOCK) with 256 in Hb. lia.
Qed.

Lemma grid_sum_bounds seed samples_per_thread num_blocks :
  u64 samples_per_thread ->
  0 <= grid_sum (launch_local_count curandState_t curand_init curand_uniform
                   seed samples_per_thread) num_blocks THREADS_PER_BLOCK
    <= samples_per_thread * (Z.of_nat num_blocks * 256).
Proof.
  intros H. unfold grid_sum.
  pose proof (sum_to_bounds
    (fun b => sum_to (launch_local_count curandState_t curand_init curand_uniform
                        seed samples_per_thread b) THREADS_PER_BLOCK)
    num_blocks 0 (256 * samples_per_thread)
    (fun b _ => block_sum_bounds seed samples_per_thread b H)) as Hb.
  lia.
Qed.

(** The launch and the copy deliver, block by block, the sum of the
    block's local counts. *)
Lemma launch_and_copy_some num_blocks seed samples_per_thread :
  grid_schedule num_blocks THREADS_PER_BLOCK block_sched sched ->
  u64 samples_per_thread ->
  samples_per_thread * 256 < 2 ^ 64 ->
  launch_and_copy curandState_t curand_init curand_uniform block_sched sched
    num_blocks seed samples_per_thread =
  Some (map (fun b => sum_to (launch_local_count curandState_t curand_init
                                curand_uniform seed samples_per_thread b)
                        THREADS_PER_BLOCK)
            (seq 0 num_blocks)).
Proof.
  intros [Hblocks Hthreads] Hu Hfit. unfold launch_and_copy.
  destruct (estimate_pi_kernel_pow2 THREADS_PER_BLOCK 8 num_blocks
              (launch_local_count curandState_t curand_init curand_uniform
                 seed samples_per_thread)
              sched block_sched (Nat.le_refl _) Hthreads)
    with (mem := {| block_results := ∅; write_log := [] |})
    as (mem' & Hrun & _ & Hget).
  - intros b i _ _. pose proof (local_count_bounds seed samples_per_thread b i Hu).
    destruct Hu. unfold u64. lia.
  - intros b Hb. rewrite Hblocks in Hb. apply elem_of_seq in Hb. lia.
  - change (2 ^ 8)%nat with THREADS_PER_BLOCK in *.
    rewrite Hrun. unfold mbind, option_bind.
    apply memcpy_results_some. intros i Hi.
    rewrite Hget, decide_True by (rewrite Hblocks; apply elem_of_seq; lia).
    f_equal. apply wrap64_small.
    pose proof (block_sum_bounds seed samples_per_thread i Hu).
    unfold u64. lia.
Qed.

(** On a device with at least one multiprocessor (and a block count that
    fits [int]) the run goes through, returns 0 and prints these figures:
    the hit total is the sum of all local counts, none lost to
    wrap-around. *)
Lemma run_simulation_returns total_samples props now :
  1 <= multiProcessorCount props ->
  multiProcessorCount props * 32 < 2 ^ 31 ->
  grid_schedule (Z.to_nat (multiProcessorCount props * 32)) THREADS_PER_BLOCK
    block_sched sched ->
  let num_blocks := multiProcessorCount props * 32 in
  let total_threads := num_blocks * 256 in
  let samples_per_thread := samples_per_thread_of total_samples total_threads in
  let total_in_circle :=
    grid_sum (launch_local_count curandState_t curand_init curand_uniform
                (wrap64 now) samples_per_thread)
      (Z.to_nat num_blocks) THREADS_PER_BLOCK in
  run_simulation curandState_t curand_init curand_uniform block_sched sched
    total_samples props now =
  Returned 0 [] (cuda_trace num_blocks (wrap64 now) samples_per_thread)
    (Some {| r_num_blocks := num_blocks;
             r_samples_per_thread := samples_per_thread;
             r_total_samples := total_samples;
             r_actual_total_samples := samples_per_thread * total_threads;
             r_total_in_circle := total_in_circle;
             r_pi_estimate :=
               pi_estimate_of total_in_circle (samples_per_thread * total_threads) |})
  /\ u64 samples_per_thread
  /\ 0 <= total_in_circle <= samples_per_thread * total_threads
  /\ samples_per_thread * total_threads < 2 ^ 64.
Proof.
  intros Hmp Hint Hsched. cbv zeta.
  set (num_blocks := multiProcessorCount props * 32) in *.
  assert (Hnb : 0 < num_blocks < 2 ^ 31) by lia.
  assert (Hw : total_threads_of num_blocks = num_blocks * 256)
    by (apply total_threads_of_eq; lia).
  set (spt := samples_per_thread_of total_samples (num_blocks * 256)).
  assert (Hu : u64 spt) by (apply samples_per_thread_u64; lia).
  assert (Hact : actual_total_samples_of spt (num_blocks * 256)
                 = spt * (num_blocks * 256))
    by (apply actual_total_samples_exact; lia).
  assert (Hfit : spt * (num_blocks * 256) < 2 ^ 64).
  { rewrite <- Hact. apply wrap64_u64. }
  pose proof (grid_sum_bounds (wrap64 now) spt (Z.to_nat num_blocks) Hu) as Hsum.
  rewrite Z2Nat.id in Hsum by lia.
  split; [|split; [exact Hu|split; [exact Hsum|exact Hfit]]].
  unfold run_simulation. fold num_blocks.
  replace ((num_blocks <=? 0) || (2 ^ 31 <=? num_blocks)) with false by lia.
  rewrite Hw.
  replace (num_blocks * 256 =? 0) with false by lia.
  fold spt. rewrite Hact.
  rewrite launch_and_copy_some; [|exact Hsched|exact Hu|destruct Hu; nia].
  rewrite sum_block_results_map.
  fold (grid_sum (launch_local_count curandState_t curand_init curand_uniform
                    (wrap64 now) spt) (Z.to_nat num_blocks)
          THREADS_PER_BLOCK).
  rewrite (wrap64_small (grid_sum _ _ _)) by (unfold u64; lia).
  reflexivity.
Qed.
End RunFacts.

(** * The claims *)

(** ** Reduction *)

(** C1, as the code has it.  For a block of [2^k] threads that fits the
    scratch array, whose local counts are unsigned 64-bit values, and for
    every order in which the threads run between the barriers, the halving
    reduction (stride [2^k / 2] down to 1, thread [tid < s] adding slot
    [tid + s] into its own slot) ends and leaves in slot 0 the sum of the
    local counts modulo [2^64]; this is exactly the sum whenever the sum is
    below [2^64].  For the 256 threads of the source with local count
    [tid mod 4] slot 0 holds 384. *)
Theorem tree_reduction_sum :
  (forall (scratch_size k : nat) (local_count : nat -> Z)
          (sched : nat -> list nat),
     (2 ^ k <= scratch_size)%nat ->
     block_schedule (2 ^ k) sched ->
     (forall i, (i < 2 ^ k)%nat -> u64 (local_count i)) ->
     exists shared,
       block_reduce scratch_size (2 ^ k) local_count sched = Some shared /\
       shared !! 0%nat = Some (wrap64 (sum_to local_count (2 ^ k))) /\
       (sum_to local_count (2 ^ k) < 2 ^ 64 ->
        shared !! 0%nat = Some (sum_to local_count (2 ^ k)))) /\
  (forall sched : nat -> list nat,
     block_schedule 256 sched ->
     exists shared,
       block_reduce THREADS_PER_BLOCK 256 (fun tid => Z.of_nat tid mod 4) sched
         = Some shared /\
       shared !! 0%nat = Some 384).
Proof.
  split.
  - intros tpb k local_count sched Htpb Hsched Hu.
    destruct (block_reduce_pow2 tpb k local_count sched Htpb Hsched Hu)
      as (shared & Hred & Hv).
    exists shared. split; [exact Hred|]. split; [exact Hv|].
    intros Hfit. rewrite Hv. f_equal. apply wrap64_small. split; [|exact Hfit].
    pose proof (sum_to_bounds local_count (2 ^ k) 0 (2 ^ 64)
                  (fun i Hi => ltac:(destruct (Hu i Hi); lia))). lia.
  - intros sched Hsched.
    destruct (block_reduce_pow2 THREADS_PER_BLOCK 8
                (fun tid => Z.of_nat tid mod 4) sched (Nat.le_refl _) Hsched)
      as (shared & Hred & Hv).
    + intros i _. pose proof (Z.mod_pos_bound (Z.of_nat i) 4 ltac:(lia)).
      unfold u64. lia.
    + exists shared. split; [exact Hred|]. rewrite Hv. reflexivity.
Qed.

Lemma tree_reduction_sum_witness :
  exists shared,
    block_reduce 4 4 (fun tid => Z.of_nat tid + 10) (Stub.in_order 4) = Some shared /\
    shared !! 0%nat = Some 46.
Proof.
  destruct (proj1 tree_reduction_sum 4%nat 2%nat (fun tid => Z.of_nat tid + 10)
              (Stub.in_order 4)) as (shared & Hred & _ & Hexact).
  - simpl. lia.
  - intros phase. reflexivity.
  - intros i Hi. unfold u64. simpl in Hi. lia.
  - exists shared. split; [exact Hred|]. apply Hexact. vm_compute. reflexivity.
Defined.

(** C1 as stated fails where the sum does not fit 64 bits: two threads with
    local counts [2^64 - 1] and [1] leave 0 in slot 0, not [2^64]. *)
Lemma tree_reduction_wraps :
  let local_count := fun tid : nat => if (tid =? 0)%nat then 2 ^ 64 - 1 else 1 in
  sum_to local_count 2 = 2 ^ 64 /\
  (block_reduce 2 2 local_count (Stub.in_order 2) ≫= fun shared => shared !! 0%nat)
    = Some 0 /\
  (block_reduce 2 2 local_count (Stub.in_order 2) ≫= fun shared => shared !! 0%nat)
    <> Some (sum_to local_count 2).
Proof.
  cbv zeta. split; [reflexivity|]. split; [vm_compute; reflexivity|].
  vm_compute. discriminate.
Qed.

(** ** The sample plan *)

(** C2 at a request the program accepts.  On a device with 24
    multiprocessors (768 blocks, 196608 threads) the argument
    [18446744073709486080] is parsed, is a multiple of the thread count and
    asks for 93824992236885 samples per thread; line 91 wraps and plans 0
    samples per thread and 0 samples in all. *)
Theorem plan_wraps_near_u64_max :
  let total_samples := 18446744073709486080 in
  let total_threads := total_threads_of (24 * 32) in
  stoull "18446744073709486080" = Parsed total_samples /\
  total_threads = 196608 /\
  ceil_div total_samples total_threads = 93824992236885 /\
  ceil_div total_samples total_threads * total_threads = total_samples /\
  samples_per_thread_of total_samples total_threads = 0 /\
  actual_total_samples_of
    (samples_per_thread_of total_samples total_threads) total_threads = 0.
Proof. cbv zeta. repeat split; vm_compute; reflexivity. Qed.

(** ** Sampling *)



(** C5.  A drawn pair raises the count exactly when the single-precision
    value of [x * x + y * y] compares below or equal to [1.0f]; a value equal
    to [1.0f] counts as inside.  So does the pair (1, 0), whose sum of
    squares is exactly 1, and the pair (1, 2^-13), whose sum rounds to 1. *)
Theorem boundary_counts_as_inside :
  (forall (x y : spec_float) (local_count : Z),
     count_sample x y local_count =
     match F32.compare (F32.add (F32.mul x x) (F32.mul y y)) F32.one with
     | Some Lt | Some Eq => add64 local_count 1
     | _ => local_count
     end) /\
  F32.compare (F32.add (F32.mul F32.one F32.one)
                 (F32.mul (S754_zero false) (S754_zero false))) F32.one = Some Eq /\
  count_sample F32.one (S754_zero false) 0 = 1 /\
  count_sample F32.one (S754_finite false 8388608 (-36)) 41 = 42 /\
  count_sample F32.one (S754_finite false 8388608 (-34)) 41 = 41.
Proof.
  split; [|repeat split; vm_compute; reflexivity].
  intros x y c. unfold count_sample, in_circle, F32.leb, SFleb, F32.compare.
  destruct (SFcompare _ _) as [[]|]; reflexivity.
Qed.

(** ** The store of the partial result *)

(** C6.  In a launch of [num_blocks] blocks of [2^k] threads that fit the
    scratch array, in whatever order blocks and threads run, the kernel
    completes and every slot of [block_results] is stored to exactly once:
    by thread 0 of the block with that index, and with the value the block's reduction left in
    shared slot 0, the sum of the block's local counts modulo [2^64].  No
    other store is made. *)
Theorem one_store_per_block :
  forall (scratch_size k num_blocks : nat) (local_count : nat -> nat -> Z)
         (block_sched : list nat) (sched : nat -> nat -> list nat),
  (2 ^ k <= scratch_size)%nat ->
  grid_schedule num_blocks (2 ^ k) block_sched sched ->
  (forall b i, (b < num_blocks)%nat -> (i < 2 ^ k)%nat -> u64 (local_count b i)) ->
  exists mem,
    estimate_pi_kernel scratch_size (2 ^ k) num_blocks local_count sched
      block_sched {| block_results := ∅; write_log := [] |} = Some mem /\
    length (write_log mem) = num_blocks /\
    (forall w, w ∈ write_log mem ->
       w_tid w = 0%nat /\ w_slot w = w_block w /\ (w_block w < num_blocks)%nat) /\
    (forall b, (b < num_blocks)%nat ->
       writes_to b (write_log mem) =
         [block_write b (wrap64 (sum_to (local_count b) (2 ^ k)))] /\
       block_results mem !! b = Some (wrap64 (sum_to (local_count b) (2 ^ k)))).
Proof.
  intros tpb k num_blocks local_count block_sched sched Htpb [Hblocks Hthreads] Hu.
  destruct (estimate_pi_kernel_pow2 tpb k num_blocks local_count sched block_sched
              Htpb Hthreads)
    with (mem := {| block_results := ∅; write_log := [] |})
    as (mem & Hrun & Hlog & Hget).
  { intros b i Hb. apply Hu. rewrite Hblocks in Hb. apply elem_of_seq in Hb. lia. }
  { intros b Hb. rewrite Hblocks in Hb. apply elem_of_seq in Hb. lia. }
  simpl in Hlog. exists mem. split; [exact Hrun|]. rewrite Hlog.
  split; [|split].
  - rewrite length_map, Hblocks. apply length_seq.
  - intros w Hw. apply list_elem_of_fmap in Hw as (b & -> & Hb).
    rewrite Hblocks in Hb. apply elem_of_seq in Hb. simpl. lia.
  - intros b Hb.
    assert (Hin : b ∈ block_sched) by (rewrite Hblocks; apply elem_of_seq; lia).
    split.
    + apply (writes_to_block_writes
               (fun b => wrap64 (sum_to (local_count b) (2 ^ k)))); [|exact Hin].
      rewrite Hblocks. apply NoDup_seq.
    + rewrite Hget, decide_True by exact Hin. reflexivity.
Qed.

Lemma one_store_per_block_witness :
  exists mem,
    estimate_pi_kernel 4 4 3 (fun b tid => Z.of_nat (b + tid)) (fun _ => Stub.in_order 4)
      [2; 0; 1]%nat {| block_results := ∅; write_log := [] |} = Some mem /\
    writes_to 1 (write_log mem) = [block_write 1 10].
Proof.
  destruct (one_store_per_block 4 2 3 (fun b tid => Z.of_nat (b + tid))
              [2; 0; 1]%nat (fun _ => Stub.in_order 4))
    as (mem & Hrun & _ & _ & Hslot).
  - simpl. lia.
  - split; [|intros b phase; reflexivity].
    apply (Permutation_cons_append [0; 1]%nat 2%nat).
  - intros b i Hb Hi. unfold u64. simpl in Hi. lia.
  - exists mem. split; [exact Hrun|]. apply (Hslot 1%nat). lia.
Defined.

(** ** Whole runs *)



(** C7, as the code has it.  Line 135 divides without looking at the
    divisor.  Whenever a run has [actual_total_samples = 0] its hit total is
    0 as well, the double-precision quotient taken is [4.0 * 0.0 / 0.0], and
    the estimate printed is NaN; the run still returns 0. *)
Theorem zero_samples_estimate_is_nan :
  forall (curandState_t : Type) (curand_init : Z -> Z -> Z -> curandState_t)
         (curand_uniform : curandState_t -> spec_float * curandState_t)
         (block_sched : list nat) (sched : nat -> nat -> list nat)
         (total_samples : Z) (props : cudaDeviceProp) (now : Z),
  1 <= multiProcessorCount props ->
  multiProcessorCount props * 32 < 2 ^ 31 ->
  grid_schedule (Z.to_nat (multiProcessorCount props * 32)) THREADS_PER_BLOCK
    block_sched sched ->
  exists calls r,
    run_simulation curandState_t curand_init curand_uniform block_sched sched
      total_samples props now = Returned 0 [] calls (Some r) /\
    r_pi_estimate r =
      F64.div (F64.mul F64.four (F64.of_u64 (r_total_in_circle r)))
              (F64.of_u64 (r_actual_total_samples r)) /\
    (r_actual_total_samples r = 0 ->
     r_total_in_circle r = 0 /\
     F64.of_u64 (r_actual_total_samples r) = S754_zero false /\
     r_pi_estimate r = S754_nan).
Proof.
  intros S init uniform block_sched sched T props now Hmp Hint Hsched.
  destruct (run_simulation_returns S init uniform block_sched sched T props now
              Hmp Hint Hsched) as (Hrun & _ & Hsum & _).
  eexists _, _. split; [exact Hrun|]. simpl. split; [reflexivity|].
  intros Hzero. rewrite Hzero in *.
  assert (Hhits : grid_sum
            (launch_local_count S init uniform (wrap64 now)
               (samples_per_thread_of T (multiProcessorCount props * 32 * 256)))
            (Z.to_nat (multiProcessorCount props * 32)) THREADS_PER_BLOCK = 0) by lia.
  rewrite Hhits. repeat split.
Qed.

Lemma zero_samples_estimate_is_nan_witness :
  exists calls r,
    Stub.run_simulation 0 7 = Returned 0 [] calls (Some r) /\
    r_actual_total_samples r = 0 /\
    r_pi_estimate r = S754_nan.
Proof.
  destruct (zero_samples_estimate_is_nan Stub.state Stub.init Stub.uniform
              (seq 0 32) (fun _ => Stub.in_order 256) 0 Stub.props 7)
    as (calls & r & Hrun & _ & Hnan).
  - simpl. lia.
  - simpl. lia.
  - split; [reflexivity|]. intros b phase. reflexivity.
  - assert (Hzero : r_actual_total_samples r = 0).
    { unfold Stub.run_simulation in *.
      assert (Hev : run_simulation Stub.state Stub.init Stub.uniform (seq 0 32)
                (fun _ => Stub.in_order 256) 0 Stub.props 7 =
              Returned 0 [] (cuda_trace 32 7 0)
                (Some {| r_num_blocks := 32; r_samples_per_thread := 0;
                         r_total_samples := 0; r_actual_total_samples := 0;
                         r_total_in_circle := 0; r_pi_estimate := S754_nan |}))
        by (vm_compute; reflexivity).
      rewrite Hev in Hrun. injection Hrun as _ <-. reflexivity. }
    exists calls, r. split; [exact Hrun|]. split; [exact Hzero|].
    apply Hnan, Hzero.
Defined.

(** C7 as stated fails: a request of 0 samples makes [main] divide 0.0 by
    0.0 and print NaN as the estimate, with no separate report of an
    undefined result. *)
Lemma zero_samples_divides_by_zero :
  Stub.main ["pi_monte_carlo"; "0"]%string 7 =
    Returned 0 [] (cuda_trace 32 7 0)
      (Some {| r_num_blocks := 32; r_samples_per_thread := 0;
               r_total_samples := 0; r_actual_total_samples := 0;
               r_total_in_circle := 0; r_pi_estimate := S754_nan |}) /\
  F64.of_u64 0 = S754_zero false /\
  pi_estimate_of 0 0 =
    F64.div (F64.mul F64.four (S754_zero false)) (S754_zero false) /\
  pi_estimate_of 0 0 = S754_nan.
Proof. repeat split; vm_compute; reflexivity. Qed.

(** C8, as the code has it.  The plan gives [samples_per_thread = 0] when
    the request is 0, and the ceiling division gives 1, not 0, for every
    request from 1 up to the number of threads.  Any run with
    [samples_per_thread = 0] goes through and returns 0: no thread draws a
    pair, every local count is 0 and so is the hit total. *)
Theorem zero_samples_per_thread_run :
  forall (curandState_t : Type) (curand_init : Z -> Z -> Z -> curandState_t)
         (curand_uniform : curandState_t -> spec_float * curandState_t)
         (block_sched : list nat) (sched : nat -> nat -> list nat)
         (total_samples : Z) (props : cudaDeviceProp) (now : Z),
  1 <= multiProcessorCount props ->
  multiProcessorCount props * 32 < 2 ^ 31 ->
  grid_schedule (Z.to_nat (multiProcessorCount props * 32)) THREADS_PER_BLOCK
    block_sched sched ->
  let total_threads := total_threads_of (multiProcessorCount props * 32) in
  samples_per_thread_of 0 total_threads = 0 /\
  (1 <= total_samples <= total_threads ->
   samples_per_thread_of total_samples total_threads = 1) /\
  exists calls r,
    run_simulation curandState_t curand_init curand_uniform block_sched sched
      total_samples props now = Returned 0 [] calls (Some r) /\
    r_samples_per_thread r = samples_per_thread_of total_samples total_threads /\
    (r_samples_per_thread r = 0 ->
     (forall b t,
        drawn_pairs curandState_t curand_uniform
          (Z.to_nat (r_samples_per_thread r))
          (curand_init (wrap64 (wrap64 now +
             global_thread_id THREADS_PER_BLOCK b t)) 0 0) = [] /\
        launch_local_count curandState_t curand_init curand_uniform
          (wrap64 now) (r_samples_per_thread r) b t = 0) /\
     r_total_in_circle r = 0).
Proof.
  intros S init uniform block_sched sched T props now Hmp Hint Hsched. cbv zeta.
  rewrite total_threads_of_eq by lia.
  set (W := multiProcessorCount props * 32 * 256).
  assert (HW : 8192 <= W < 2 ^ 40) by (unfold W; lia).
  split; [|split].
  - rewrite samples_per_thread_ceil by lia. unfold ceil_div.
    apply Z.div_small. lia.
  - intros HT. rewrite samples_per_thread_ceil by lia. unfold ceil_div.
    symmetry. apply (Z.div_unique _ _ 1 (T - 1)); lia.
  - destruct (run_simulation_returns S init uniform block_sched sched T props now
                Hmp Hint Hsched) as (Hrun & Hu & Hsum & _).
    fold W in Hrun, Hu, Hsum.
    eexists _, _. split; [exact Hrun|]. simpl. split; [reflexivity|].
    intros Hzero. rewrite Hzero in *. split; [|lia].
    intros b t. split; reflexivity.
Qed.

Lemma zero_samples_per_thread_run_witness :
  samples_per_thread_of 0 8192 = 0 /\
  samples_per_thread_of 8192 8192 = 1 /\
  exists calls r,
    Stub.run_simulation 0 7 = Returned 0 [] calls (Some r) /\
    r_samples_per_thread r = 0 /\ r_total_in_circle r = 0.
Proof.
  destruct (zero_samples_per_thread_run Stub.state Stub.init Stub.uniform
              (seq 0 32) (fun _ => Stub.in_order 256) 0 Stub.props 7)
    as (Hzero & _ & calls & r & Hrun & Hspt & Hrest).
  - simpl. lia.
  - simpl. lia.
  - split; [reflexivity|]. intros b phase. reflexivity.
  - split; [exact Hzero|]. split; [vm_compute; reflexivity|].
    exists calls, r. split; [exact Hrun|].
    assert (H0 : r_samples_per_thread r = 0) by (rewrite Hspt; exact Hzero).
    split; [exact H0|]. apply Hrest, H0.
Defined.

(** C8 as stated fails: a request of 1 sample is smaller than the 8192
    threads of the smallest grid, and the plan is 1 sample per thread,
    not 0. *)
Lemma small_request_gets_one_sample :
  1 < total_threads_of (1 * 32) /\
  samples_per_thread_of 1 (total_threads_of (1 * 32)) = 1 /\
  samples_per_thread_of 1 (total_threads_of (1 * 32)) <> 0.
Proof. split; [|split]; vm_compute; [reflexivity|reflexivity|discriminate]. Qed.

(** ** Command line *)

Example stoull_examples :
  stoull "42" = Parsed 42 /\
  stoull "  +7 apples" = Parsed 7 /\
  stoull "-1" = Parsed (2 ^ 64 - 1) /\
  stoull "18446744073709551615" = Parsed (2 ^ 64 - 1) /\
  stoull "18446744073709551616" = out_of_range /\
  stoull "" = invalid_argument /\
  stoull "abc" = invalid_argument /\
  stoull "- 5" = invalid_argument.
Proof. repeat split; vm_compute; reflexivity. Qed.







Lemma is_decimal_number_parse arg :
  is_decimal_number arg = true ->
  split_sign (skip_spaces arg) = (false, arg) /\ leading_digits arg <> [].
Proof.
  destruct arg as [|c rest]; [discriminate|].
  unfold is_decimal_number. cbn [all_digits leading_digits].
  destruct (digit_of c) as [d|] eqn:Hd; [intros _|discriminate].
  split; [|discriminate].
  destruct c as [b0 b1 b2 b3 b4 b5 b6 b7].
  destruct b0, b1, b2, b3, b4, b5, b6, b7;
    first [discriminate Hd | reflexivity].
Qed.

(** C10.  When the first argument is a decimal number above [2^64 - 1],
    [std::stoull] throws [std::out_of_range]; the handler of line 73 takes
    [std::invalid_argument] only, so the exception leaves [main]: the
    program ends on the uncaught exception instead of returning 1 after the
    diagnostic, and no CUDA call is made. *)
Theorem out_of_range_is_uncaught :
  forall (curandState_t : Type) (curand_init : Z -> Z -> Z -> curandState_t)
         (curand_uniform : curandState_t -> spec_float * curandState_t)
         (block_sched : list nat) (sched : nat -> nat -> list nat)
         (prog arg : string) (rest : list string)
         (props : cudaDeviceProp) (now : Z),
  is_decimal_number arg = true ->
  2 ^ 64 <= number_of arg ->
  stoull arg = out_of_range /\
  main curandState_t curand_init curand_uniform block_sched sched
    (prog :: arg :: rest) props now = Uncaught out_of_range.
Proof.
  intros S init uniform block_sched sched prog arg rest props now Hnum Hbig.
  assert (Hparse : stoull arg = out_of_range).
  { unfold stoull. destruct (is_decimal_number_parse arg Hnum) as [-> Hds].
    unfold number_of in Hbig.
    destruct (leading_digits arg) as [|d ds]; [contradiction|].
    apply Z.leb_le in Hbig. rewrite Hbig. reflexivity. }
  split; [exact Hparse|]. unfold main. rewrite Hparse. reflexivity.
Qed.

Lemma out_of_range_is_uncaught_witness :
  Stub.main ["pi_monte_carlo"; "18446744073709551616"]%string 7 =
  Uncaught out_of_range.
Proof.
  apply (out_of_range_is_uncaught Stub.state Stub.init Stub.uniform
           (seq 0 32) (fun _ => Stub.in_order 256)
           "pi_monte_carlo" "18446744073709551616" [] Stub.props 7).
  - reflexivity.
  - vm_compute. discriminate.
Defined.

(** * Further properties of the code *)

(** ** The sample plan, lines 89-92 *)

(** X1.  When [total_samples + total_threads] fits 64 bits, the plan
    gives every thread the least number of samples that covers the
    request: the actual total is a multiple of the thread count, reaches
    the request and stays less than one round of threads above it. *)
Theorem plan_is_least_cover :
  forall total_samples total_threads : Z,
  0 <= total_samples -> 1 <= total_threads ->
  total_samples + total_threads <= 2 ^ 64 ->
  let samples_per_thread := samples_per_thread_of total_samples total_threads in
  let actual := actual_total_samples_of samples_per_thread total_threads in
  actual = samples_per_thread * total_threads /\
  total_samples <= actual < total_samples + total_threads /\
  (forall m, total_samples <= m * total_threads -> samples_per_thread <= m).
Proof.
  intros T W HT HW Hfit. cbv zeta.
  rewrite actual_total_samples_exact by lia.
  rewrite samples_per_thread_ceil by assumption.
  pose proof (ceil_div_covers T W HW) as Hc.
  split; [reflexivity|]. split; [exact Hc|].
  intros m Hm. nia.
Qed.

Lemma plan_is_least_cover_witness :
  actual_total_samples_of (samples_per_thread_of 10000 8192) 8192 = 16384.
Proof.
  destruct (plan_is_least_cover 10000 8192) as (-> & _ & _); try lia.
  vm_compute. reflexivity.
Defined.

(** X2.  The plan is empty in two cases only: the request is 0, or
    [total_samples + total_threads] exceeds [2^64], where the sum of
    line 91 wraps.  An empty plan has [actual_total_samples = 0]. *)
Theorem plan_is_empty_iff :
  forall total_samples total_threads : Z,
  u64 total_samples -> 1 <= total_threads < 2 ^ 64 ->
  (samples_per_thread_of total_samples total_threads = 0 <->
   total_samples = 0 \/ 2 ^ 64 < total_samples + total_threads) /\
  (samples_per_thread_of total_samples total_threads = 0 ->
   actual_total_samples_of
     (samples_per_thread_of total_samples total_threads) total_threads = 0).
Proof.
  intros T W [HT0 HT1] HW. split.
  - unfold samples_per_thread_of, add64, wrap64.
    rewrite Zminus_mod_idemp_l.
    destruct (Z_le_gt_dec (T + W) (2 ^ 64)) as [Hfit|Hwrap].
    + rewrite Z.mod_small by lia. split.
      * intros Hz. apply Z.div_small_iff in Hz; lia.
      * intros [->|Hbig]; [apply Z.div_small; lia|lia].
    + replace (T + W - 1) with (T + W - 1 - 2 ^ 64 + 1 * 2 ^ 64) by lia.
      rewrite Z.mod_add by lia. rewrite Z.mod_small by lia. split.
      * intros _. right. lia.
      * intros _. apply Z.div_small. lia.
  - intros ->. reflexivity.
Qed.

Lemma plan_is_empty_iff_witness :
  samples_per_thread_of (2 ^ 64 - 5) 8192 = 0.
Proof.
  apply (proj1 (plan_is_empty_iff (2 ^ 64 - 5) 8192 ltac:(unfold u64; lia)
                  ltac:(lia))).
  right. lia.
Defined.

(** ** The seeds of the generators, lines 28 and 36 *)

(** X3.  In a grid of at most [2^32] threads no two threads seed their
    generator alike: the seeds [seed + global_thread_id] of two threads
    are equal only if block and thread index are.  Beyond [2^32] threads
    [global_thread_id] wraps: with blocks of 256 threads, block [2^24]
    repeats the seeds of block 0. *)
Theorem thread_seeds_are_distinct :
  (forall (seed : Z) (blockDim num_blocks b1 t1 b2 t2 : nat),
     Z.of_nat num_blocks * Z.of_nat blockDim <= 2 ^ 32 ->
     (b1 < num_blocks)%nat -> (t1 < blockDim)%nat ->
     (b2 < num_blocks)%nat -> (t2 < blockDim)%nat ->
     wrap64 (seed + global_thread_id blockDim b1 t1) =
     wrap64 (seed + global_thread_id blockDim b2 t2) ->
     b1 = b2 /\ t1 = t2) /\
  (forall (seed : Z) (t : nat),
     wrap64 (seed + global_thread_id 256 (2 ^ 24) t) =
     wrap64 (seed + global_thread_id 256 0 t)).
Proof.
  split.
  - intros seed bd nb b1 t1 b2 t2 Hfit Hb1 Ht1 Hb2 Ht2 Heq.
    assert (Hid : forall b t, (b < nb)%nat -> (t < bd)%nat ->
              global_thread_id bd b t = Z.of_nat b * Z.of_nat bd + Z.of_nat t /\
              0 <= global_thread_id bd b t < 2 ^ 32).
    { intros b t Hb Ht. unfold global_thread_id, wrap32.
      rewrite Z.mod_small by nia. split; [reflexivity|nia]. }
    destruct (Hid b1 t1 Hb1 Ht1) as [E1 R1].
    destruct (Hid b2 t2 Hb2 Ht2) as [E2 R2].
    assert (Hg : global_thread_id bd b1 t1 = global_thread_id bd b2 t2).
    { unfold wrap64 in Heq.
      set (x := global_thread_id bd b1 t1) in *.
      set (y := global_thread_id bd b2 t2) in *.
      assert (Hd : (x - y) mod 2 ^ 64 = 0).
      { replace (x - y) with ((seed + x) - (seed + y)) by lia.
        rewrite Zminus_mod, Heq, Z.sub_diag. reflexivity. }
      apply Z.mod_divide in Hd; [|lia]. destruct Hd as [q Hq].
      assert (q = 0) by nia. lia. }
    rewrite E1, E2 in Hg.
    assert (Z.of_nat b1 = Z.of_nat b2) by nia.
    split; lia.
  - intros seed t. unfold global_thread_id, wrap32.
    replace (Z.of_nat (2 ^ 24) * Z.of_nat 256 + Z.of_nat t)
      with (Z.of_nat t + 1 * 2 ^ 32).
    + rewrite Z.mod_add by lia.
      replace (Z.of_nat 0 * Z.of_nat 256 + Z.of_nat t) with (Z.of_nat t) by lia.
      reflexivity.
    + rewrite Nat2Z.inj_pow. change (Z.of_nat 256) with (2 ^ 8).
      change (Z.of_nat 2) with 2. change (Z.of_nat 24) with 24. lia.
Qed.

Lemma thread_seeds_are_distinct_witness :
  wrap64 (7 + global_thread_id 256 3 17) <> wrap64 (7 + global_thread_id 256 4 17).
Proof.
  intros Heq.
  apply (proj1 thread_seeds_are_distinct 7 256%nat 32%nat 3%nat 17%nat 4%nat 17%nat)
    in Heq; [|simpl; lia..].
  destruct Heq as [Hb _]. discriminate Hb.
Defined.

(** ** The reduction for any block size, lines 50-60 *)

Lemma div2_le_half s : (Nat.div2 s + Nat.div2 s <= s)%nat.
Proof.
  pose proof (Nat.div2_odd s) as H. destruct (Nat.odd s); simpl in H; lia.
Qed.

Lemma sum_to_nonneg f n :
  (forall i, (i < n)%nat -> 0 <= f i) -> 0 <= sum_to f n.
Proof.
  induction n as [|n IH]; intros H; simpl; [lia|].
  specialize (IH (fun i Hi => H i (Nat.lt_lt_succ_r _ _ Hi))).
  specialize (H n (Nat.lt_succ_diag_r n)). lia.
Qed.

Lemma sum_to_mono f n m :
  (n <= m)%nat -> (forall i, (i < m)%nat -> 0 <= f i) ->
  sum_to f n <= sum_to f m.
Proof.
  induction 1 as [|m Hle IH]; intros H; [lia|]. simpl.
  specialize (IH (fun i Hi => H i (Nat.lt_lt_succ_r _ _ Hi))).
  specialize (H m (Nat.lt_succ_diag_r m)). lia.
Qed.

Lemma sum_to_term f n i :
  (i < n)%nat -> (forall j, (j < n)%nat -> 0 <= f j) -> f i <= sum_to f n.
Proof.
  intros Hi H.
  pose proof (sum_to_mono f (S i) n Hi H) as Hm. simpl in Hm.
  pose proof (sum_to_nonneg f i (fun j Hj => H j ltac:(lia))). lia.
Qed.

(** From any stride on the loop ends within [s] iterations, stays inside
    the scratch array and, as long as nothing wraps, leaves in slot 0 no
    more than the first [m] slots held together. *)
Lemma reduce_loop_bounded tpb n sched :
  block_schedule n sched -> (n <= tpb)%nat ->
  forall fuel s step (shared : gmap nat Z) m,
  (s <= fuel)%nat -> (s + s <= m)%nat -> (1 <= m <= n)%nat ->
  (forall i, (i < m)%nat -> exists v, shared !! i = Some v /\ 0 <= v) ->
  sum_to (slot shared) m < 2 ^ 64 ->
  exists shared' v,
    reduce_loop tpb sched fuel s step shared = Some shared' /\
    shared' !! 0%nat = Some v /\ 0 <= v <= sum_to (slot shared) m.
Proof.
  intros Hsched Hn.
  induction fuel as [|fuel IH]; intros s step shared m Hfuel Hs Hm Hdef Hfit.
  - assert (s = 0%nat) as -> by lia. rewrite reduce_loop_done.
    destruct (Hdef 0%nat) as (v & Hv & Hv0); [lia|].
    exists shared, v. split; [reflexivity|]. split; [exact Hv|].
    split; [exact Hv0|].
    replace v with (slot shared 0) by (unfold slot; rewrite Hv; reflexivity).
    apply sum_to_term; [lia|].
    intros j Hj. destruct (Hdef j Hj) as (w & Hw & Hw0).
    unfold slot. rewrite Hw. exact Hw0.
  - assert (Hnonneg : forall j, (j < m)%nat -> 0 <= slot shared j).
    { intros j Hj. destruct (Hdef j Hj) as (w & Hw & Hw0).
      unfold slot. rewrite Hw. exact Hw0. }
    destruct (Nat.eq_dec s 0%nat) as [->|Hpos].
    { rewrite reduce_loop_done.
      destruct (Hdef 0%nat) as (v & Hv & Hv0); [lia|].
      exists shared, v. split; [reflexivity|]. split; [exact Hv|].
      split; [exact Hv0|].
      replace v with (slot shared 0) by (unfold slot; rewrite Hv; reflexivity).
      apply sum_to_term; [lia|exact Hnonneg]. }
    destruct (run_phase_reduce tpb s (sched step) shared)
      as (shared1 & Hrun & Hget).
    { eapply NoDup_block_schedule, Hsched. }
    { intros t Ht Hts. apply (elem_of_block_schedule _ _ _ _ Hsched) in Ht. lia. }
    { intros i Hi. destruct (Hdef i) as (v & Hv & _); [lia|]. eauto. }
    assert (Hpos' : (0 < s)%nat) by lia.
    rewrite (reduce_loop_step _ _ _ _ _ _ _ Hpos' Hrun).
    assert (Hsplit : sum_to (slot shared) (s + s) =
              sum_to (slot shared) s + sum_to (fun i => slot shared (s + i)) s)
      by apply sum_to_app.
    assert (Hle2 : sum_to (slot shared) (s + s) <= sum_to (slot shared) m)
      by (apply sum_to_mono; [lia|exact Hnonneg]).
    assert (Hpair : forall i, (i < s)%nat ->
              shared1 !! i = Some (slot shared i + slot shared (s + i)) /\
              0 <= slot shared i + slot shared (s + i)).
    { intros i Hi. rewrite Hget, decide_True.
      - pose proof (Hnonneg i ltac:(lia)). pose proof (Hnonneg (s + i)%nat ltac:(lia)).
        pose proof (sum_to_term (slot shared) s i Hi
                      (fun j Hj => Hnonneg j ltac:(lia))).
        pose proof (sum_to_term (fun i => slot shared (s + i)) s i Hi
                      (fun j Hj => Hnonneg (s + j)%nat ltac:(lia))) as Hup.
        simpl in Hup. rewrite (Nat.add_comm i s).
        split; [|lia]. f_equal. apply wrap64_small. unfold u64. lia.
      - split; [|exact Hi]. apply (elem_of_block_schedule _ _ _ _ Hsched). lia. }
    assert (Hsum1 : sum_to (slot shared1) s = sum_to (slot shared) (s + s)).
    { rewrite Hsplit, <- sum_to_plus. apply sum_to_ext. intros i Hi.
      unfold slot at 1. rewrite (proj1 (Hpair i Hi)). reflexivity. }
    destruct (IH (Nat.div2 s) (S step) shared1 s) as (shared' & v & Hloop & Hv & Hv0).
    + pose proof (div2_le_half s). lia.
    + apply div2_le_half.
    + lia.
    + intros i Hi. destruct (Hpair i Hi) as [Hi1 Hi2]. eauto.
    + lia.
    + exists shared', v. split; [exact Hloop|]. split; [exact Hv|]. lia.
Qed.

(** X4.  For every block size that fits the scratch array, a power of
    two or not, and every order of the threads, the reduction ends without
    leaving the array.  When the local counts add up to less than [2^64],
    slot 0 ends between 0 and their sum: counts may be lost, none is
    counted twice. *)
Theorem reduction_never_overcounts :
  forall (scratch_size blockDim : nat) (local_count : nat -> Z)
         (sched : nat -> list nat),
  (1 <= blockDim <= scratch_size)%nat ->
  block_schedule blockDim sched ->
  (forall i, (i < blockDim)%nat -> 0 <= local_count i) ->
  sum_to local_count blockDim < 2 ^ 64 ->
  exists shared v,
    block_reduce scratch_size blockDim local_count sched = Some shared /\
    shared !! 0%nat = Some v /\
    0 <= v <= sum_to local_count blockDim.
Proof.
  intros tpb n lc sched Hn Hsched Hlc Hfit. unfold block_reduce.
  destruct (run_phase_store tpb lc (sched 0%nat) ∅) as (shared0 & Hrun & Hget).
  { intros t Ht. apply (elem_of_block_schedule _ _ _ _ Hsched) in Ht. lia. }
  rewrite Hrun. unfold mbind, option_bind.
  assert (Hdef : forall i, (i < n)%nat -> shared0 !! i = Some (lc i)).
  { intros i Hi. rewrite Hget, decide_True; [reflexivity|].
    apply (elem_of_block_schedule _ _ _ _ Hsched). exact Hi. }
  assert (Hsame : sum_to (slot shared0) n = sum_to lc n).
  { apply sum_to_ext. intros i Hi. unfold slot. rewrite (Hdef i Hi). reflexivity. }
  destruct (reduce_loop_bounded tpb n sched Hsched ltac:(lia)
              n (n / 2)%nat 1%nat shared0 n) as (shared' & v & Hloop & Hv & Hb).
  - apply Nat.Div0.div_le_upper_bound. lia.
  - pose proof (Nat.Div0.mul_div_le n 2). lia.
  - lia.
  - intros i Hi. exists (lc i). split; [apply Hdef, Hi|apply Hlc, Hi].
  - lia.
  - exists shared', v. split; [exact Hloop|]. split; [exact Hv|]. lia.
Qed.

Lemma reduction_never_overcounts_witness :
  exists shared v,
    block_reduce 256 6 (fun tid => Z.of_nat tid + 1) (Stub.in_order 6) = Some shared /\
    shared !! 0%nat = Some v /\ 0 <= v <= 21.
Proof.
  apply (reduction_never_overcounts 256 6 (fun tid => Z.of_nat tid + 1)
           (Stub.in_order 6)).
  - lia.
  - intros phase. reflexivity.
  - intros i _. lia.
  - vm_compute. reflexivity.
Defined.

Lemma sum_to_const c n : sum_to (fun _ => c) n = Z.of_nat n * c.
Proof. induction n as [|n IH]; simpl sum_to; [lia|]. rewrite IH. lia. Qed.

(** With the same value in every slot, each iteration doubles it. *)
Lemma reduce_loop_constant tpb n sched :
  block_schedule n sched -> (n <= tpb)%nat ->
  forall j fuel s step (shared : gmap nat Z) c,
  (2 ^ j <= s < 2 ^ S j)%nat -> (s <= fuel)%nat -> (s + s <= n)%nat ->
  (forall i, (i < s + s)%nat -> shared !! i = Some c) ->
  exists shared',
    reduce_loop tpb sched fuel s step shared = Some shared' /\
    shared' !! 0%nat = Some (wrap64 (c * 2 ^ Z.of_nat (S j))).
Proof.
  intros Hsched Hn.
  induction j as [|j IH]; intros fuel s step shared c Hs Hfuel Hfit Hc.
  - assert (s = 1%nat) as -> by (simpl in Hs; lia).
    destruct fuel as [|fuel]; [lia|].
    destruct (run_phase_reduce tpb 1 (sched step) shared)
      as (shared1 & Hrun & Hget).
    { eapply NoDup_block_schedule, Hsched. }
    { intros t Ht Hts. apply (elem_of_block_schedule _ _ _ _ Hsched) in Ht. lia. }
    { intros i Hi. rewrite (Hc i Hi). eauto. }
    rewrite (reduce_loop_step _ _ _ _ _ _ _ Nat.lt_0_1 Hrun).
    change (Nat.div2 1) with 0%nat. rewrite reduce_loop_done.
    exists shared1. split; [reflexivity|].
    rewrite Hget, decide_True.
    + unfold slot. rewrite !Hc by lia. simpl. unfold add64.
      f_equal. f_equal. lia.
    + split; [|lia]. apply (elem_of_block_schedule _ _ _ _ Hsched). lia.
  - assert (Hpow : (2 ^ S (S j) = 2 * 2 ^ S j)%nat) by apply Nat.pow_succ_r'.
    assert (Hpow' : (2 ^ S j = 2 * 2 ^ j)%nat) by apply Nat.pow_succ_r'.
    pose proof (pow2_pos j) as Hj.
    destruct fuel as [|fuel]; [lia|].
    destruct (run_phase_reduce tpb s (sched step) shared)
      as (shared1 & Hrun & Hget).
    { eapply NoDup_block_schedule, Hsched. }
    { intros t Ht Hts. apply (elem_of_block_schedule _ _ _ _ Hsched) in Ht. lia. }
    { intros i Hi. rewrite (Hc i Hi). eauto. }
    assert (Hpos : (0 < s)%nat) by lia.
    rewrite (reduce_loop_step _ _ _ _ _ _ _ Hpos Hrun).
    pose proof (div2_le_half s) as Hhalf.
    pose proof (Nat.div2_odd s) as Hodd.
    assert (Hb : (Nat.b2n (Nat.odd s) <= 1)%nat) by (destruct (Nat.odd s); simpl; lia).
    destruct (IH fuel (Nat.div2 s) (S step) shared1 (add64 c c))
      as (shared' & Hloop & Hv); [lia|lia|lia| |].
    + intros i Hi. rewrite Hget, decide_True.
      * unfold slot. rewrite !Hc by lia. reflexivity.
      * split; [|lia]. apply (elem_of_block_schedule _ _ _ _ Hsched). lia.
    + exists shared'. split; [exact Hloop|]. rewrite Hv. f_equal.
      unfold add64, wrap64. rewrite Z.mul_mod_idemp_l by lia. f_equal.
      rewrite (Nat2Z.inj_succ (S j)), Z.pow_succ_r by lia. lia.
Qed.

(** X5.  When every thread of a block holds the same count [c] and the
    block size [n] lies between [2^k] and [2^(k+1)], slot 0 ends with
    [c * 2^k] modulo [2^64]: the reduction adds up [2^k] of the [n] counts.
    For a size that is not a power of two the rest is lost, so the
    result is below the sum of the counts. *)
Theorem reduction_adds_a_power_of_two :
  forall (scratch_size blockDim k : nat) (c : Z) (sched : nat -> list nat),
  (blockDim <= scratch_size)%nat ->
  (2 ^ k <= blockDim < 2 ^ S k)%nat ->
  u64 c ->
  block_schedule blockDim sched ->
  exists shared,
    block_reduce scratch_size blockDim (fun _ => c) sched = Some shared /\
    shared !! 0%nat = Some (wrap64 (c * 2 ^ Z.of_nat k)) /\
    ((2 ^ k < blockDim)%nat -> 0 < c -> c * Z.of_nat blockDim < 2 ^ 64 ->
     wrap64 (c * 2 ^ Z.of_nat k) < sum_to (fun _ => c) blockDim).
Proof.
  intros tpb n k c sched Hn Hk Hc Hsched.
  assert (Hlast : (2 ^ k < n)%nat -> 0 < c -> c * Z.of_nat n < 2 ^ 64 ->
            wrap64 (c * 2 ^ Z.of_nat k) < sum_to (fun _ => c) n).
  { intros Hlt Hpos Hfit. rewrite sum_to_const.
    assert (Hzk : 2 ^ Z.of_nat k = Z.of_nat (2 ^ k))
      by (rewrite Nat2Z.inj_pow; reflexivity).
    rewrite Hzk. rewrite wrap64_small by (unfold u64; nia). nia. }
  unfold block_reduce.
  destruct (run_phase_store tpb (fun _ => c) (sched 0%nat) ∅)
    as (shared0 & Hrun & Hget).
  { intros t Ht. apply (elem_of_block_schedule _ _ _ _ Hsched) in Ht. lia. }
  rewrite Hrun. unfold mbind, option_bind.
  assert (Hdef : forall i, (i < n)%nat -> shared0 !! i = Some c).
  { intros i Hi. rewrite Hget, decide_True; [reflexivity|].
    apply (elem_of_block_schedule _ _ _ _ Hsched). exact Hi. }
  destruct k as [|j].
  - assert (n = 1%nat) as -> by (simpl in Hk; lia).
    change (1 / 2)%nat with 0%nat. rewrite reduce_loop_done.
    exists shared0. split; [reflexivity|]. split; [|exact Hlast].
    rewrite Hdef by lia. f_equal. simpl. rewrite Z.mul_1_r.
    symmetry. apply wrap64_small, Hc.
  - assert (Hpow : (2 ^ S (S j) = 2 * 2 ^ S j)%nat) by apply Nat.pow_succ_r'.
    assert (Hpow' : (2 ^ S j = 2 * 2 ^ j)%nat) by apply Nat.pow_succ_r'.
    pose proof (Nat.div_mod_eq n 2) as Hdm.
    pose proof (Nat.mod_upper_bound n 2 ltac:(lia)) as Hmod.
    destruct (reduce_loop_constant tpb n sched Hsched Hn
                j n (n / 2)%nat 1%nat shared0 c) as (shared' & Hloop & Hv);
      [lia|lia|lia| |].
    + intros i Hi. apply Hdef. lia.
    + exists shared'. split; [exact Hloop|]. split; [exact Hv|exact Hlast].
Qed.

Lemma reduction_adds_a_power_of_two_witness :
  exists shared,
    block_reduce 256 6 (fun _ => 1) (Stub.in_order 6) = Some shared /\
    shared !! 0%nat = Some 4 /\ 4 < sum_to (fun _ => 1) 6.
Proof.
  destruct (reduction_adds_a_power_of_two 256 6 2 1 (Stub.in_order 6))
    as (shared & Hrun & Hv & Hlt).
  - lia.
  - simpl. lia.
  - unfold u64. lia.
  - intros phase. reflexivity.
  - exists shared. split; [exact Hrun|]. split; [exact Hv|].
    apply Hlt; simpl; lia.
Defined.

(** ** The bounds of the scratch array, lines 23 and 51 *)

Lemma run_phase_fails {St} (body : nat -> St -> option St) t sched :
  (forall st, body t st = None) -> t ∈ sched ->
  forall st, run_phase body sched st = None.
Proof.
  intros Hfail. induction sched as [|u rest IH]; intros Hin st; [inversion Hin|].
  simpl. destruct (body u st) as [st'|] eqn:Hu; [|reflexivity]. simpl.
  apply elem_of_cons in Hin as [->|Hin].
  - rewrite Hfail in Hu. discriminate.
  - apply IH, Hin.
Qed.

(** X6.  A launch with more threads in a block than [shared_counts] has
    slots cannot complete: thread [THREADS_PER_BLOCK] stores outside the
    array at line 51, in whatever order the threads run. *)
Theorem oversized_block_leaves_the_scratch_array :
  forall (scratch_size blockDim num_blocks : nat) (local_count : nat -> nat -> Z)
         (block_sched : list nat) (sched : nat -> nat -> list nat)
         (mem : device_mem),
  (scratch_size < blockDim)%nat -> (1 <= num_blocks)%nat ->
  grid_schedule num_blocks blockDim block_sched sched ->
  (forall b, block_reduce scratch_size blockDim (local_count b) (sched b) = None) /\
  estimate_pi_kernel scratch_size blockDim num_blocks local_count sched
    block_sched mem = None.
Proof.
  intros tpb n nb lc block_sched sched mem Hbig Hnb [Hblocks Hthreads].
  assert (Hred : forall b, block_reduce tpb n (lc b) (sched b) = None).
  { intros b. unfold block_reduce.
    rewrite (run_phase_fails (store_body tpb (lc b)) tpb (sched b 0%nat)).
    - reflexivity.
    - intros st. unfold store_body, shared_write.
      rewrite decide_False by lia. reflexivity.
    - apply (elem_of_block_schedule _ _ _ _ (Hthreads b)). exact Hbig. }
  split; [exact Hred|].
  destruct block_sched as [|b rest].
  - apply Permutation_nil_l in Hblocks. destruct nb; [lia|discriminate].
  - simpl. unfold kernel_block. rewrite Hred. reflexivity.
Qed.

Lemma oversized_block_leaves_the_scratch_array_witness :
  estimate_pi_kernel 256 512 2 (fun _ _ => 0) (fun _ => Stub.in_order 512)
    [0; 1]%nat {| block_results := ∅; write_log := [] |} = None.
Proof.
  apply (oversized_block_leaves_the_scratch_array 256 512 2 (fun _ _ => 0)
           [0; 1]%nat (fun _ => Stub.in_order 512)).
  - lia.
  - lia.
  - split; [reflexivity|]. intros b phase. reflexivity.
Defined.

(** ** The order of the threads, lines 50-60 *)





(** ** Numeric arguments, lines 70-72 *)

Lemma stoull_decimal arg :
  is_decimal_number arg = true -> number_of arg < 2 ^ 64 ->
  stoull arg = Parsed (number_of arg).
Proof.
  intros Hnum Hfit. unfold stoull.
  destruct (is_decimal_number_parse arg Hnum) as [-> Hds].
  unfold number_of in Hfit.
  destruct (leading_digits arg) as [|d ds] eqn:Hl; [contradiction|].
  apply Z.leb_gt in Hfit. rewrite Hfit. unfold number_of. rewrite Hl. reflexivity.
Qed.

(** X8.  An argument made of decimal digits whose value is below [2^64]
    is taken at that value, read in base 10 whatever its leading zeros;
    arguments after the first are not looked at. *)
Theorem decimal_argument_sets_the_request :
  forall (curandState_t : Type) (curand_init : Z -> Z -> Z -> curandState_t)
         (curand_uniform : curandState_t -> spec_float * curandState_t)
         (block_sched : list nat) (sched : nat -> nat -> list nat)
         (prog arg : string) (rest : list string)
         (props : cudaDeviceProp) (now : Z),
  is_decimal_number arg = true ->
  number_of arg < 2 ^ 64 ->
  main curandState_t curand_init curand_uniform block_sched sched
    (prog :: arg :: rest) props now =
  run_simulation curandState_t curand_init curand_uniform block_sched sched
    (number_of arg) props now.
Proof.
  intros S init uniform block_sched sched prog arg rest props now Hnum Hfit.
  unfold main. rewrite (stoull_decimal arg Hnum Hfit). reflexivity.
Qed.

Lemma decimal_argument_sets_the_request_witness :
  Stub.main ["pi_monte_carlo"; "010"; "ignored"]%string 7 = Stub.run_simulation 10 7.
Proof.
  apply (decimal_argument_sets_the_request Stub.state Stub.init Stub.uniform
           (seq 0 32) (fun _ => Stub.in_order 256)
           "pi_monte_carlo" "010" ["ignored"%string] Stub.props 7).
  - reflexivity.
  - vm_compute. reflexivity.
Defined.

(** X9.  A minus sign in front of the digits is not rejected: the value is
    negated in 64 bits, so ["-v"] with [1 <= v < 2^64] asks for [2^64 - v]
    samples. *)
Theorem negative_argument_wraps :
  forall (curandState_t : Type) (curand_init : Z -> Z -> Z -> curandState_t)
         (curand_uniform : curandState_t -> spec_float * curandState_t)
         (block_sched : list nat) (sched : nat -> nat -> list nat)
         (prog digits : string) (rest : list string)
         (props : cudaDeviceProp) (now : Z),
  is_decimal_number digits = true ->
  1 <= number_of digits < 2 ^ 64 ->
  main curandState_t curand_init curand_uniform block_sched sched
    (prog :: String "-" digits :: rest) props now =
  run_simulation curandState_t curand_init curand_uniform block_sched sched
    (2 ^ 64 - number_of digits) props now.
Proof.
  intros S init uniform block_sched sched prog ds rest props now Hnum [Hpos Hfit].
  unfold main.
  assert (Hparse : stoull (String "-" ds) = Parsed (2 ^ 64 - number_of ds)).
  { unfold stoull. change (skip_spaces (String "-" ds)) with (String "-" ds).
    change (split_sign (String "-" ds)) with (true, ds). cbv iota beta.
    destruct (is_decimal_number_parse ds Hnum) as [_ Hds].
    unfold number_of in *.
    destruct (leading_digits ds) as [|d l]; [contradiction|].
    apply Z.leb_gt in Hfit. rewrite Hfit. f_equal.
    unfold wrap64.
    replace (- decimal_value (d :: l))
      with (2 ^ 64 - decimal_value (d :: l) + (-1) * 2 ^ 64) by lia.
    rewrite Z.mod_add by lia. apply Z.mod_small. lia. }
  rewrite Hparse. reflexivity.
Qed.

Lemma negative_argument_wraps_witness :
  Stub.main ["pi_monte_carlo"; "-1"]%string 7 =
  Stub.run_simulation 18446744073709551615 7.
Proof.
  apply (negative_argument_wraps Stub.state Stub.init Stub.uniform
           (seq 0 32) (fun _ => Stub.in_order 256)
           "pi_monte_carlo" "1" [] Stub.props 7).
  - reflexivity.
  - split; vm_compute; [discriminate|reflexivity].
Defined.

(** ** More samples for the same thread, lines 36-48 *)

Section SamplerPrefix.
Variable curandState_t : Type.
Variable curand_init : Z -> Z -> Z -> curandState_t.
Variable curand_uniform : curandState_t -> spec_float * curandState_t.

Lemma drawn_pairs_app n m state :
  drawn_pairs curandState_t curand_uniform (n + m) state =
  drawn_pairs curandState_t curand_uniform n state ++
  drawn_pairs curandState_t curand_uniform m (state_after curand_uniform n state).
Proof.
  revert state. induction n as [|n IH]; intros state; [reflexivity|].
  simpl. destruct (curand_uniform state) as [x state1].
  destruct (curand_uniform state1) as [y state2]. simpl. f_equal. apply IH.
Qed.

Lemma sample_loop_app n m state local_count :
  sample_loop curandState_t curand_uniform (n + m) state local_count =
  sample_loop curandState_t curand_uniform m (state_after curand_uniform n state)
    (sample_loop curandState_t curand_uniform n state local_count).
Proof.
  revert state local_count. induction n as [|n IH]; intros state c; [reflexivity|].
  simpl. destruct (curand_uniform state) as [x state1].
  destruct (curand_uniform state1) as [y state2]. apply IH.
Qed.

Lemma hits_app l1 l2 : hits (l1 ++ l2) = (hits l1 + hits l2)%nat.
Proof. unfold hits. rewrite List.filter_app, length_app. reflexivity. Qed.
End SamplerPrefix.

(** X10.  A thread asked for more samples continues the same stream: its
    first draws are the ones it made before, the loop over [n + m] samples
    is the loop over [m] samples started from the state and the count the
    first [n] left, and so its local count does not drop and grows by at
    most one per additional sample. *)
Theorem more_samples_extend_the_count :
  forall (curandState_t : Type) (curand_init : Z -> Z -> Z -> curandState_t)
         (curand_uniform : curandState_t -> spec_float * curandState_t)
         (seed : Z) (blockDim block_id tid : nat) (n m : Z),
  0 <= n -> 0 <= m -> n + m < 2 ^ 64 ->
  let state0 :=
    curand_init (wrap64 (seed + global_thread_id blockDim block_id tid)) 0 0 in
  let count := thread_local_count curandState_t curand_init curand_uniform
                 seed in
  drawn_pairs curandState_t curand_uniform (Z.to_nat (n + m)) state0 =
    drawn_pairs curandState_t curand_uniform (Z.to_nat n) state0 ++
    drawn_pairs curandState_t curand_uniform (Z.to_nat m)
      (state_after curand_uniform (Z.to_nat n) state0) /\
  count (n + m) blockDim block_id tid =
    sample_loop curandState_t curand_uniform (Z.to_nat m)
      (state_after curand_uniform (Z.to_nat n) state0)
      (count n blockDim block_id tid) /\
  count n blockDim block_id tid <= count (n + m) blockDim block_id tid
    <= count n blockDim block_id tid + m.
Proof.
  intros S init uniform seed bd b t n m Hn Hm Hfit. cbv zeta.
  rewrite Z2Nat.inj_add by assumption.
  split; [apply drawn_pairs_app|]. split.
  - unfold thread_local_count. rewrite Z2Nat.inj_add by assumption.
    apply sample_loop_app.
  - rewrite !thread_local_count_hits by (unfold u64; lia).
    rewrite Z2Nat.inj_add by assumption.
    rewrite drawn_pairs_app, hits_app.
    pose proof (hits_le_length
      (drawn_pairs S uniform (Z.to_nat m)
         (state_after uniform (Z.to_nat n)
            (init (wrap64 (seed + global_thread_id bd b t)) 0 0)))) as Hle.
    rewrite drawn_pairs_length in Hle. lia.
Qed.

Lemma more_samples_extend_the_count_witness :
  thread_local_count Stub.state Stub.init Stub.uniform 7 5 256 3 17 <=
  thread_local_count Stub.state Stub.init Stub.uniform 7 (5 + 4) 256 3 17.
Proof.
  apply (more_samples_extend_the_count Stub.state Stub.init Stub.uniform
           7 256 3 17 5 4); lia.
Defined.

(** ** Failing CUDA calls, lines 11-17 and 79-151 *)

Section CheckedFacts.
Variable curandState_t : Type.
Variable curand_init : Z -> Z -> Z -> curandState_t.
Variable curand_uniform : curandState_t -> spec_float * curandState_t.
Variable block_sched : list nat.
Variable sched : nat -> nat -> list nat.
Variable file : string.
Variable cudaGetErrorString : Z -> string.
Variable runtime : nat -> Z.

Lemma bind_CUDA_CHECK_ok {B : Type} line call (k : unit -> io B) p :
  runtime (length (p_calls p)) = 0 ->
  io_bind (CUDA_CHECK file cudaGetErrorString runtime line call) k p =
  k tt {| p_calls := p_calls p ++ [call]; p_cout := p_cout p; p_cerr := p_cerr p |}.
Proof. intros H. unfold io_bind, CUDA_CHECK. rewrite H. reflexivity. Qed.

Lemma bind_CUDA_CHECK_failed {B : Type} line call (k : unit -> io B) p :
  runtime (length (p_calls p)) <> 0 ->
  io_bind (CUDA_CHECK file cudaGetErrorString runtime line call) k p =
  Exit EXIT_FAILURE
    {| p_calls := p_calls p ++ [call]; p_cout := p_cout p;
       p_cerr := p_cerr p ++
         [cuda_error_message file line
            (cudaGetErrorString (runtime (length (p_calls p))))] |}.
Proof.
  intros H. unfold io_bind, CUDA_CHECK.
  apply Z.eqb_neq in H. unfold cudaSuccess. rewrite H. reflexivity.
Qed.

Lemma bind_print {B : Type} lines (k : unit -> io B) p :
  io_bind (print lines) k p =
  k tt {| p_calls := p_calls p; p_cout := p_cout p ++ [lines]; p_cerr := p_cerr p |}.
Proof. reflexivity. Qed.

Lemma bind_unchecked {B : Type} call (k : unit -> io B) p :
  io_bind (unchecked call) k p =
  k tt {| p_calls := p_calls p ++ [call]; p_cout := p_cout p; p_cerr := p_cerr p |}.
Proof. reflexivity. Qed.

Ltac tidy := cbv beta; cbn [p_calls p_cout p_cerr app length].
Ltac check_ok H :=
  rewrite bind_CUDA_CHECK_ok by (tidy; apply H; lia); tidy.
Ltac check_failed H :=
  rewrite bind_CUDA_CHECK_failed by (tidy; exact H); tidy.
Ltac printed := rewrite bind_print; tidy.
Ltac launched := rewrite bind_unchecked; tidy.

Lemma run_checked_all_succeed total_samples props now :
  (forall n, (n < 15)%nat -> n <> 6%nat -> runtime n = 0) ->
  outcome_of
    (run_checked curandState_t curand_init curand_uniform block_sched sched
       file cudaGetErrorString runtime total_samples props now start) =
  run_simulation curandState_t curand_init curand_uniform block_sched sched
    total_samples props now.
Proof.
  intros Hok. unfold run_checked, run_simulation, start.
  check_ok Hok. check_ok Hok. cbv zeta.
  destruct ((multiProcessorCount props * 32 <=? 0)
            || (2 ^ 31 <=? multiProcessorCount props * 32)); [reflexivity|].
  destruct (total_threads_of (multiProcessorCount props * 32) =? 0); [reflexivity|].
  printed. do 4 check_ok Hok. launched. do 3 check_ok Hok.
  destruct (launch_and_copy _ _ _ _ _ _ _ _) as [h|]; [|reflexivity].
  do 2 check_ok Hok. printed. do 3 check_ok Hok.
  reflexivity.
Qed.

Ltac advance Hok Hc1 Hc2 Hl :=
  first [ check_ok Hok | printed | launched
        | progress (cbv zeta; rewrite ?Hc1, ?Hc2, ?Hl; cbv iota) ].

Lemma run_checked_first_failure total_samples props now n calls r :
  run_simulation curandState_t curand_init curand_uniform block_sched sched
    total_samples props now = Returned 0 [] calls (Some r) ->
  (n < 15)%nat -> n <> 6%nat ->
  (forall i, (i < n)%nat -> i <> 6%nat -> runtime i = 0) ->
  runtime n <> 0 ->
  run_checked curandState_t curand_init curand_uniform block_sched sched
    file cudaGetErrorString runtime total_samples props now start =
  Exit EXIT_FAILURE
    {| p_calls := take (S n) calls;
       p_cout := cout_before n r (name props);
       p_cerr := [cuda_error_message file (nth n call_lines 0)
                    (cudaGetErrorString (runtime n))] |}.
Proof.
  intros Hrun Hn Hne Hok Hfail. unfold run_simulation in Hrun.
  destruct ((multiProcessorCount props * 32 <=? 0)
            || (2 ^ 31 <=? multiProcessorCount props * 32)) eqn:Hc1;
    [discriminate|].
  destruct (total_threads_of (multiProcessorCount props * 32) =? 0) eqn:Hc2;
    [discriminate|].
  destruct (launch_and_copy _ _ _ _ _ _ _ _) as [h|] eqn:Hl; [|discriminate].
  injection Hrun as <- <-.
  unfold run_checked, start.
  do 15 (destruct n as [|n];
         [ try (exfalso; apply Hne; reflexivity);
           repeat advance Hok Hc1 Hc2 Hl; check_failed Hfail; reflexivity | ]).
  lia.
Qed.
End CheckedFacts.

(** X11.  When every checked CUDA call succeeds, the program with its
    checks ends as the program without them: same status, same lines on
    [cerr], same calls and same figures, for every command line and every
    device. *)
Theorem checked_run_agrees_when_calls_succeed :
  forall (curandState_t : Type) (curand_init : Z -> Z -> Z -> curandState_t)
         (curand_uniform : curandState_t -> spec_float * curandState_t)
         (block_sched : list nat) (sched : nat -> nat -> list nat)
         (file : string) (cudaGetErrorString : Z -> string) (runtime : nat -> Z)
         (argv : list string) (props : cudaDeviceProp) (now : Z),
  (forall n, (n < 15)%nat -> n <> 6%nat -> runtime n = 0) ->
  outcome_of
    (main_checked curandState_t curand_init curand_uniform block_sched sched
       file cudaGetErrorString runtime argv props now) =
  main curandState_t curand_init curand_uniform block_sched sched argv props now.
Proof.
  intros S init uniform block_sched sched file errstr runtime argv props now Hok.
  unfold main_checked, main.
  destruct argv as [|prog [|arg rest]];
    try (apply run_checked_all_succeed; exact Hok).
  destruct (stoull arg); [|reflexivity|reflexivity].
  apply run_checked_all_succeed. exact Hok.
Qed.

Lemma checked_run_agrees_when_calls_succeed_witness :
  outcome_of
    (main_checked Stub.state Stub.init Stub.uniform (seq 0 32)
       (fun _ => Stub.in_order 256) "pi_monte_carlo.cu" (fun _ => "error"%string)
       (fun _ => 0) ["pi_monte_carlo"; "10000"]%string Stub.props 7) =
  Stub.main ["pi_monte_carlo"; "10000"]%string 7.
Proof.
  apply (checked_run_agrees_when_calls_succeed Stub.state Stub.init Stub.uniform
           (seq 0 32) (fun _ => Stub.in_order 256) "pi_monte_carlo.cu"
           (fun _ => "error"%string) (fun _ => 0)).
  intros n _ _. reflexivity.
Defined.

(** X12.  The first checked call that fails ends the run at once: the
    process exits with [EXIT_FAILURE], its one line on [stderr] names the
    source line of that call and the text of its error, no CUDA call
    follows the failed one, and [std::cout] holds what was printed
    before it (the plan from the third call on, the results only when
    the failure is in the clean-up of lines 147-149). *)
Theorem first_failed_check_ends_the_run :
  forall (curandState_t : Type) (curand_init : Z -> Z -> Z -> curandState_t)
         (curand_uniform : curandState_t -> spec_float * curandState_t)
         (block_sched : list nat) (sched : nat -> nat -> list nat)
         (file : string) (cudaGetErrorString : Z -> string) (runtime : nat -> Z)
         (total_samples : Z) (props : cudaDeviceProp) (now : Z)
         (n : nat) (calls : list cuda_call) (r : report),
  run_simulation curandState_t curand_init curand_uniform block_sched sched
    total_samples props now = Returned 0 [] calls (Some r) ->
  (n < 15)%nat -> n <> 6%nat ->
  (forall i, (i < n)%nat -> i <> 6%nat -> runtime i = 0) ->
  runtime n <> 0 ->
  run_checked curandState_t curand_init curand_uniform block_sched sched
    file cudaGetErrorString runtime total_samples props now start =
  Exit EXIT_FAILURE
    {| p_calls := take (S n) calls;
       p_cout := cout_before n r (name props);
       p_cerr := [cuda_error_message file (nth n call_lines 0)
                    (cudaGetErrorString (runtime n))] |}.
Proof.
  intros S init uniform block_sched sched file errstr runtime T props now n calls r.
  apply run_checked_first_failure.
Qed.

Lemma stub_run_10000 :
  Stub.run_simulation 10000 7 =
  Returned 0 [] (cuda_trace 32 7 2)
    (Some {| r_num_blocks := 32; r_samples_per_thread := 2;
             r_total_samples := 10000; r_actual_total_samples := 16384;
             r_total_in_circle := 6144;
             r_pi_estimate := S754_finite false 6755399441055744 (-52) |}).
Proof. vm_compute. reflexivity. Qed.

Lemma first_failed_check_ends_the_run_witness :
  run_checked Stub.state Stub.init Stub.uniform (seq 0 32)
    (fun _ => Stub.in_order 256) "pi_monte_carlo.cu" (fun _ => "out of memory"%string)
    (fails_at 2 2) 10000 Stub.props 7 start =
  Exit 1 {| p_calls := [cudaGetDevice; cudaGetDeviceProperties; cudaMalloc 256];
            p_cout := [plan_lines "stub" 256 32 2 10000 16384];
            p_cerr := ["CUDA error at pi_monte_carlo.cu:104: out of memory"%string] |}.
Proof.
  apply (first_failed_check_ends_the_run Stub.state Stub.init Stub.uniform
           (seq 0 32) (fun _ => Stub.in_order 256) "pi_monte_carlo.cu"
           (fun _ => "out of memory"%string) (fails_at 2 2) 10000 Stub.props 7
           2%nat _ _ stub_run_10000).
  - lia.
  - lia.
  - intros i Hi _. unfold fails_at.
    destruct (Nat.eqb_spec i 2); [lia|reflexivity].
  - vm_compute. discriminate.
Defined.

(** A failing call has a first one. *)
Lemma first_failure (runtime : nat -> Z) bound :
  (forall i, (i < bound)%nat -> i <> 6%nat -> runtime i = 0) \/
  exists n, (n < bound)%nat /\ n <> 6%nat /\ runtime n <> 0 /\
            forall i, (i < n)%nat -> i <> 6%nat -> runtime i = 0.
Proof.
  induction bound as [|bound [IH|(n & Hn & Hne & Hfail & Hbefore)]].
  - left. intros i Hi. lia.
  - destruct (Nat.eq_dec bound 6%nat) as [H6|H6].
    + left. intros i Hi Hi6. apply IH; lia.
    + destruct (Z.eq_dec (runtime bound) 0) as [Hz|Hnz].
      * left. intros i Hi Hi6.
        destruct (Nat.eq_dec i bound) as [->|Hib]; [exact Hz|apply IH; lia].
      * right. exists bound. repeat split; try assumption; try lia.
  - right. exists n. repeat split; try assumption. lia.
Qed.

(** X13.  On a run that completes when nothing fails, the process ends
    with status 0 exactly when all fourteen checked calls succeed, and
    with status 1 otherwise, also when only the clean-up fails after
    the results have been printed.  What the runtime would answer to the
    kernel launch itself is never read. *)
Theorem exit_status_tells_whether_a_call_failed :
  forall (curandState_t : Type) (curand_init : Z -> Z -> Z -> curandState_t)
         (curand_uniform : curandState_t -> spec_float * curandState_t)
         (block_sched : list nat) (sched : nat -> nat -> list nat)
         (file : string) (cudaGetErrorString : Z -> string) (runtime : nat -> Z)
         (total_samples : Z) (props : cudaDeviceProp) (now : Z)
         (calls : list cuda_call) (r : report),
  run_simulation curandState_t curand_init curand_uniform block_sched sched
    total_samples props now = Returned 0 [] calls (Some r) ->
  let ended :=
    run_checked curandState_t curand_init curand_uniform block_sched sched
      file cudaGetErrorString runtime total_samples props now start in
  (status_of ended = Some 0 <->
   forall n, (n < 15)%nat -> n <> 6%nat -> runtime n = 0) /\
  (status_of ended = Some 0 \/ status_of ended = Some 1).
Proof.
  intros S init uniform block_sched sched file errstr runtime T props now calls r
    Hrun. cbv zeta.
  destruct (first_failure runtime 15) as [Hok|(n & Hn & Hne & Hfail & Hbefore)].
  - pose proof (run_checked_all_succeed S init uniform block_sched sched file
                  errstr runtime T props now Hok) as Hagree.
    rewrite Hrun in Hagree.
    assert (Hzero : status_of
              (run_checked S init uniform block_sched sched file errstr runtime
                 T props now start) = Some 0).
    { destruct (run_checked _ _ _ _ _ _ _ _ _ _ _ _) as [v p|v p|e|];
        simpl in Hagree; try discriminate; injection Hagree as -> _ _ _;
        reflexivity. }
    split; [|left; exact Hzero]. split; [intros _; exact Hok|intros _; exact Hzero].
  - rewrite (run_checked_first_failure S init uniform block_sched sched file
               errstr runtime T props now n calls r Hrun Hn Hne Hbefore Hfail).
    simpl. split; [|right; reflexivity]. split.
    + intros H. discriminate H.
    + intros Hok. exfalso. apply Hfail, Hok; assumption.
Qed.

Lemma exit_status_tells_whether_a_call_failed_witness :
  status_of
    (run_checked Stub.state Stub.init Stub.uniform (seq 0 32)
       (fun _ => Stub.in_order 256) "pi_monte_carlo.cu" (fun _ => "error"%string)
       (fails_at 6 1) 10000 Stub.props 7 start) = Some 0.
Proof.
  apply (proj1 (exit_status_tells_whether_a_call_failed Stub.state Stub.init
                  Stub.uniform (seq 0 32) (fun _ => Stub.in_order 256)
                  "pi_monte_carlo.cu" (fun _ => "error"%string) (fails_at 6 1)
                  10000 Stub.props 7 _ _ stub_run_10000)).
  intros n _ Hne. unfold fails_at.
  destruct (Nat.eqb_spec n 6); [contradiction|reflexivity].
Defined.

(** X14.  A run that fails before the clean-up releases nothing: when the
    failed call is one of the first twelve, neither [cudaFree] nor
    [cudaEventDestroy] is called before the process exits, and the
    results are not printed. *)
Theorem failed_run_skips_the_clean_up :
  forall (curandState_t : Type) (curand_init : Z -> Z -> Z -> curandState_t)
         (curand_uniform : curandState_t -> spec_float * curandState_t)
         (block_sched : list nat) (sched : nat -> nat -> list nat)
         (file : string) (cudaGetErrorString : Z -> string) (runtime : nat -> Z)
         (total_samples : Z) (props : cudaDeviceProp) (now : Z)
         (n : nat) (calls : list cuda_call) (r : report),
  run_simulation curandState_t curand_init curand_uniform block_sched sched
    total_samples props now = Returned 0 [] calls (Some r) ->
  (n < 12)%nat -> n <> 6%nat ->
  (forall i, (i < n)%nat -> i <> 6%nat -> runtime i = 0) ->
  runtime n <> 0 ->
  exists p,
    run_checked curandState_t curand_init curand_uniform block_sched sched
      file cudaGetErrorString runtime total_samples props now start =
    Exit EXIT_FAILURE p /\
    length (p_calls p) = S n /\
    (cudaFree ∉ p_calls p) /\ (cudaEventDestroy ∉ p_calls p) /\
    (forall total_in_circle pi_estimate,
       result_lines total_in_circle pi_estimate ∉ p_cout p).
Proof.
  intros S init uniform block_sched sched file errstr runtime T props now n calls r
    Hrun Hn Hne Hbefore Hfail.
  rewrite (run_checked_first_failure S init uniform block_sched sched file
             errstr runtime T props now n calls r Hrun ltac:(lia) Hne Hbefore Hfail).
  eexists. split; [reflexivity|]. cbn [p_calls p_cout].
  assert (Hcalls : calls = cuda_trace (multiProcessorCount props * 32) (wrap64 now)
            (samples_per_thread_of T
               (total_threads_of (multiProcessorCount props * 32)))).
  { unfold run_simulation in Hrun.
    destruct (_ || _); [discriminate|].
    destruct (_ =? 0); [discriminate|].
    destruct (launch_and_copy _ _ _ _ _ _ _ _); [|discriminate].
    injection Hrun as <- _. reflexivity. }
  rewrite Hcalls. unfold cuda_trace, cout_before.
  do 12 (destruct n as [|n];
         [ repeat split; try reflexivity;
           try (intros He; apply list_elem_of_In in He; simpl in He;
                intuition discriminate);
           intros ? ? He; apply list_elem_of_In in He; simpl in He;
           intuition discriminate | ]).
  lia.
Qed.

Lemma failed_run_skips_the_clean_up_witness :
  exists p,
    run_checked Stub.state Stub.init Stub.uniform (seq 0 32)
      (fun _ => Stub.in_order 256) "pi_monte_carlo.cu" (fun _ => "error"%string)
      (fails_at 9 1) 10000 Stub.props 7 start = Exit 1 p /\
    (cudaFree ∉ p_calls p).
Proof.
  destruct (failed_run_skips_the_clean_up Stub.state Stub.init Stub.uniform
              (seq 0 32) (fun _ => Stub.in_order 256) "pi_monte_carlo.cu"
              (fun _ => "error"%string) (fails_at 9 1) 10000 Stub.props 7
              9%nat _ _ stub_run_10000) as (p & Hrun & _ & Hfree & _).
  - lia.
  - lia.
  - intros i Hi _. unfold fails_at.
    destruct (Nat.eqb_spec i 9); [lia|reflexivity].
  - vm_compute. discriminate.
  - exists p. split; [exact Hrun|exact Hfree].
Defined.

(** ** The host sum, lines 124-127 *)

(** X15.  Whatever the block results are, the loop of lines 125-127 leaves
    their sum modulo [2^64] in [total_in_circle]; when they are not
    negative and add up to less than [2^64] it is their sum. *)
Theorem host_sum_is_sum_mod_2_64 :
  forall h_block_results : list Z,
  sum_block_results h_block_results = wrap64 (fold_right Z.add 0 h_block_results) /\
  (0 <= fold_right Z.add 0 h_block_results < 2 ^ 64 ->
   sum_block_results h_block_results = fold_right Z.add 0 h_block_results).
Proof.
  intros l.
  assert (Hgen : forall acc, fold_left add64 l (wrap64 acc) =
                             wrap64 (acc + fold_right Z.add 0 l)).
  { induction l as [|x l IH]; intros acc; simpl.
    - rewrite Z.add_0_r. reflexivity.
    - unfold add64 at 2. rewrite wrap64_add_l, IH. f_equal. lia. }
  assert (Hsum : sum_block_results l = wrap64 (fold_right Z.add 0 l)).
  { unfold sum_block_results. change 0 with (wrap64 0) at 1.
    rewrite Hgen. reflexivity. }
  split; [exact Hsum|]. intros Hfit. rewrite Hsum. apply wrap64_small. exact Hfit.
Qed.

Lemma host_sum_is_sum_mod_2_64_witness :
  sum_block_results [2 ^ 63; 2 ^ 63; 5] = 5 /\ sum_block_results [3; 4; 5] = 12.
Proof.
  split.
  - rewrite (proj1 (host_sum_is_sum_mod_2_64 [2 ^ 63; 2 ^ 63; 5])). reflexivity.
  - apply (proj2 (host_sum_is_sum_mod_2_64 [3; 4; 5])). simpl. lia.
Defined.
